(** * PayID resolution middleware ([src/middlewares/payIds.ts])

    A shallow embedding of [getPaymentInfoForAcceptTypes] and
    [getPaymentInfo].  The middleware is asynchronous, throws and catches
    exceptions, mutates the Express response object and calls collaborators
    that live in other modules of the repository; it is therefore written
    here in a small state-and-exception monad over a [World] that holds the
    response object, the JavaScript heap of allocated payloads and a trace of
    the calls made to the collaborators. *)

From stdpp Require Import gmap strings list.

Open Scope string_scope.
Open Scope list_scope.

(** ** Data model *)

(** Modelled from the spec: [types/httpStatus] is missing; the spec maps the
    first three failures to 400 and not-found to 404, and the source itself
    writes the literal [400] where it means [HttpStatus.BadRequest]. *)
Module HttpStatus.
Definition BadRequest : nat := 400.
Definition NotFound : nat := 404.
End HttpStatus.

(** A thrown JavaScript [Error]; only its [message] is read by the source. *)
Record Error := mkError { message : string }.

(** [AcceptMediaType] of [utils/acceptHeader]: the three fields the
    middleware reads.  [environment] is optional in the source (the parsed
    type of [application/ach+json] has none). *)
Module AcceptMediaType.
Record t := mk {
  mediaType : string;
  paymentNetwork : string;
  environment : option string
}.
End AcceptMediaType.

(** Modelled from the spec: [types/database] is missing.  The source reads
    [payment_network] and [details] of an [AddressInformation]; the spec's
    AddressRecord adds [environment] and the discriminator [detailsKind]
    (its two recognised values are [crypto_address] and [ach_address]
    below).  [details] is the opaque payload. *)
Module AddressInformation.
Record t := mk {
  payment_network : string;
  environment : option string;
  detailsKind : string;
  details : string
}.
End AddressInformation.

Definition crypto_address : string := "crypto-address".
Definition ach_address : string := "ach-address".

(** [types/publicAPI]: the tag of the outbound payload and the payload. *)
Inductive AddressDetailType := CryptoAddress | AchAddress.

Record PaymentInformation := mkPaymentInformation {
  addressDetailType : AddressDetailType;
  addressDetails : string
}.

(** A heap location of an allocated [PaymentInformation] object. *)
Definition loc := nat.

(** A value stored in [res.locals]: a string, or a reference to an object. *)
Inductive Value :=
| VString (s : string)
| VRef (l : loc).

(** The Express request: what the middleware reads of it.  [accepts] is the
    result of [req.accepts()], the media types of the Accept header already
    ordered by preference. *)
Record Request := mkRequest {
  hostname : string;
  url : string;
  accepts : list string
}.

(** The Express response: headers, the [locals] object, and what was sent. *)
Record Response := mkResponse {
  headers : gmap string string;
  locals : gmap string Value;
  statusCode : option nat;
  body : option string
}.

(** Calls to the collaborators, in the order they are made.  [CallNext]
    keeps the response and heap the next middleware is handed. *)
Inductive Event :=
| CallParse (token : string)
| CallFetch (payId : string)
| CallMatch
| CallHandleHttpError (code : nat) (msg : string)
| CallNext (r : Response) (h : gmap loc PaymentInformation).

Record World := mkWorld {
  res : Response;
  heap : gmap loc PaymentInformation;
  log : list Event
}.

(** ** The monad: state passing over [World], with exceptions *)

Inductive Result (A : Type) :=
| Ok (a : A)
| Throw (e : Error).
Arguments Ok {A} a.
Arguments Throw {A} e.

Definition M (A : Type) : Type := World -> Result A * World.

Definition ret {A} (a : A) : M A := fun w => (Ok a, w).

Definition bind {A B} (m : M A) (k : A -> M B) : M B :=
  fun w => match m w with
           | (Ok a, w') => k a w'
           | (Throw e, w') => (Throw e, w')
           end.

(** [try { m } catch (e) { ... }]: the exception becomes a value. *)
Definition try_ {A} (m : M A) : M (Error + A) :=
  fun w => match m w with
           | (Ok a, w') => (Ok (inr a), w')
           | (Throw e, w') => (Ok (inl e), w')
           end.

(** A pure call that may throw. *)
Definition lift {A} (r : Error + A) : M A :=
  fun w => match r with
           | inl e => (Throw e, w)
           | inr a => (Ok a, w)
           end.

Definition emit (e : Event) : M unit :=
  fun w => (Ok tt, mkWorld (res w) (heap w) (log w ++ [e])).

Declare Scope js_scope.
Delimit Scope js_scope with js.
Notation "x <- m ;; k" := (bind m (fun x => k))
  (at level 100, m at next level, right associativity) : js_scope.
Notation "m ;;; k" := (bind m (fun _ => k))
  (at level 100, right associativity) : js_scope.

(** [Array.prototype.map] with a callback that may throw: left to right,
    stopping at the first exception. *)
Fixpoint mapM {A B} (f : A -> M B) (l : list A) : M (list B) :=
  match l with
  | [] => ret []
  | x :: xs => (y <- f x ;; ys <- mapM f xs ;; ret (y :: ys))%js
  end.

(** ** Express's [res.set]

    [res.set(field, value)] of Express 4 ([lib/response.js]), which the
    middleware calls for its [Content-Type]: for the field [content-type], in
    any case, a value without a [charset] parameter gets the charset that
    [mime.charsets.lookup] gives for its part before the first semicolon
    appended; every other field and value is stored as given.  Strings are taken
    as ASCII text, as header names and values are. *)

Module Express.

Definition semicolon : Ascii.ascii := Ascii.ascii_of_nat 59.
Definition equals : Ascii.ascii := Ascii.ascii_of_nat 61.

(** [String.prototype.toLowerCase] on ASCII text. *)
Definition toLowerCaseChar (c : Ascii.ascii) : Ascii.ascii :=
  let n := Ascii.nat_of_ascii c in
  if Nat.leb 65 n && Nat.leb n 90 then Ascii.ascii_of_nat (n + 32) else c.

Fixpoint toLowerCase (s : string) : string :=
  match s with
  | EmptyString => EmptyString
  | String c s' => String (toLowerCaseChar c) (toLowerCase s')
  end.

(** The ASCII characters of the class [\s]: tab, line feed, vertical tab,
    form feed, carriage return and space. *)
Definition whitespace (c : Ascii.ascii) : bool :=
  let n := Ascii.nat_of_ascii c in
  (Nat.leb 9 n && Nat.leb n 13) || Nat.eqb n 32.

Fixpoint skipWhitespace (s : string) : string :=
  match s with
  | EmptyString => EmptyString
  | String c s' => if whitespace c then skipWhitespace s' else s
  end.

(** [s] without the prefix [p], when it starts with it. *)
Fixpoint stripPrefix (p s : string) : option string :=
  match p, s with
  | EmptyString, _ => Some s
  | String a p', String b s' => if Ascii.eqb a b then stripPrefix p' s' else None
  | String _ _, EmptyString => None
  end.

(** What may follow a semicolon for [charsetRegExp] to match there. *)
Definition charsetParameter (s : string) : bool :=
  match stripPrefix "charset" (skipWhitespace s) with
  | Some rest =>
      match skipWhitespace rest with
      | String c _ => Ascii.eqb c equals
      | EmptyString => false
      end
  | None => false
  end.

(** [charsetRegExp.test(value)], the expression being
    [/;\s*charset\s*=/]. *)
Fixpoint charsetRegExp (value : string) : bool :=
  match value with
  | EmptyString => false
  | String c s' => (Ascii.eqb c semicolon && charsetParameter s') || charsetRegExp s'
  end.

(** [value.split(';')[0]]. *)
Fixpoint beforeSemicolon (value : string) : string :=
  match value with
  | EmptyString => EmptyString
  | String c s' => if Ascii.eqb c semicolon then EmptyString else String c (beforeSemicolon s')
  end.

(** [mime.charsets.lookup(mimeType)]: [UTF-8] when the type matches
    [/^text\/|^application\/(javascript|json)/], nothing otherwise. *)
Definition charsetsLookup (mimeType : string) : option string :=
  if String.prefix "text/" mimeType
     || String.prefix "application/javascript" mimeType
     || String.prefix "application/json" mimeType
  then Some "UTF-8" else None.

(** The value [res.set] hands to [setHeader]. *)
Definition headerValue (field value : string) : string :=
  if String.eqb (toLowerCase field) "content-type" then
    if charsetRegExp value then value
    else match charsetsLookup (beforeSemicolon value) with
         | Some charset => value +:+ "; charset=" +:+ toLowerCase charset
         | None => value
         end
  else value.

End Express.

(** [res.set(field, value)]. *)
Definition res_set (field value : string) : M unit :=
  fun w => (Ok tt,
            mkWorld (mkResponse (<[field := Express.headerValue field value]>
                                   (headers (res w)))
                                (locals (res w)) (statusCode (res w)) (body (res w)))
                    (heap w) (log w)).

(** [res.locals.key = v]. *)
Definition set_local (key : string) (v : Value) : M unit :=
  fun w => (Ok tt,
            mkWorld (mkResponse (headers (res w))
                                (<[key := v]> (locals (res w)))
                                (statusCode (res w)) (body (res w)))
                    (heap w) (log w)).

(** An object literal: a fresh heap location holding the object. *)
Definition alloc (o : PaymentInformation) : M loc :=
  fun w => let l := fresh (dom (heap w)) in
           (Ok l, mkWorld (res w) (<[l := o]> (heap w)) (log w)).

(** [next()]: control passes on with the response as it stands. *)
Definition next : M unit :=
  fun w => emit (CallNext (res w) (heap w)) w.

(** The events a run added to the trace. *)
Definition emitted (w w' : World) : list Event :=
  drop (length (log w)) (log w').

Definition fetchCalls (es : list Event) : list string :=
  omap (fun e => match e with CallFetch p => Some p | _ => None end) es.

Definition is_next (e : Event) : bool :=
  match e with CallNext _ _ => true | _ => false end.

Definition is_http_error (e : Event) : bool :=
  match e with CallHandleHttpError _ _ => true | _ => false end.

(** ** The matcher of [utils/acceptHeader] *)

Module AcceptHeader.
Import AcceptMediaType.

(** Modelled from the spec: [utils/acceptHeader] is missing.  A record
    satisfies a preference when its payment network is exactly the
    preference's and its environment is exactly the preference's, or the
    preference has no environment (the wildcard). *)
Definition matches (p : AcceptMediaType.t) (r : AddressInformation.t) : bool :=
  String.eqb (paymentNetwork p) (AddressInformation.payment_network r)
  && match environment p with
     | None => true
     | Some e => bool_decide (AddressInformation.environment r = Some e)
     end.

(** Modelled from the spec: [getPreferredPaymentInfo] of
    [utils/acceptHeader] is missing.  The ranked preferences are walked in
    order; for each one the records are scanned for the first that
    satisfies it; the first preference with such a record decides. *)
Fixpoint getPreferredPaymentInfo
    (records : list AddressInformation.t) (prefs : list AcceptMediaType.t)
    : option (AcceptMediaType.t * AddressInformation.t) :=
  match prefs with
  | [] => None
  | p :: ps =>
      match find (matches p) records with
      | Some r => Some (p, r)
      | None => getPreferredPaymentInfo records ps
      end
  end.
End AcceptHeader.

(** ** Messages *)

Definition dquote : string := String (Ascii.ascii_of_nat 34) EmptyString.
Definition newline : string := String (Ascii.ascii_of_nat 10) EmptyString.

Definition acceptForm : string :=
  dquote +:+ "application/{payment_network}(-{environment})+json" +:+ dquote +:+ ".".

(** The lines both Accept-header messages end with (the template literals
    keep the source's line breaks and indentation). *)
Definition acceptExamples : string :=
  newline +:+ "      Examples:"
  +:+ newline +:+ "      - 'Accept: application/xrpl-mainnet+json'"
  +:+ newline +:+ "      - 'Accept: application/btc-testnet+json'"
  +:+ newline +:+ "      - 'Accept: application/ach+json'"
  +:+ newline +:+ "      ".

Definition missingAcceptHeaderMessage : string :=
  "Missing Accept header. Must have an Accept header of the form "
  +:+ acceptForm +:+ acceptExamples.

Definition invalidAcceptHeaderMessage : string :=
  "Invalid Accept header. Must be of the form " +:+ acceptForm +:+ acceptExamples.

(** [${x}] of a possibly undefined string. *)
Definition interpolate (o : option string) : string :=
  match o with
  | Some s => s
  | None => "undefined"
  end.

Definition genericNotFoundMessage (payId : string) : string :=
  "Payment information for " +:+ payId +:+ " could not be found.".

Definition specificNotFoundMessage (payId : string) (a : AcceptMediaType.t) : string :=
  "Payment information for " +:+ payId +:+ " in " +:+ AcceptMediaType.paymentNetwork a
  +:+ " on " +:+ interpolate (AcceptMediaType.environment a) +:+ " could not be found.".

(** Lines 121-126: the generic message, replaced by the detailed one when
    there is a single accept type. *)
Definition notFoundMessage (payId : string) (parsedAcceptTypes : list AcceptMediaType.t)
    : string :=
  let message := genericNotFoundMessage payId in
  if Nat.eqb (length parsedAcceptTypes) 1 then
    match parsedAcceptTypes !! 0 with
    | Some a => specificNotFoundMessage payId a
    | None => message
    end
  else message.

(** Lines 136-145: the payload starts as a crypto address and is replaced by
    an ACH address when the payment network is the string [ACH]. *)
Definition shapeResponse (paymentInformation : AddressInformation.t) : M loc :=
  (response <- alloc (mkPaymentInformation CryptoAddress
                        (AddressInformation.details paymentInformation)) ;;
   if String.eqb (AddressInformation.payment_network paymentInformation) "ACH"
   then alloc (mkPaymentInformation AchAddress
                 (AddressInformation.details paymentInformation))
   else ret response)%js.

(** ** The middleware *)

Section Middleware.
(** The collaborators, all defined outside [middlewares/payIds.ts]. *)
Variable urlToPayId : string -> Error + string.
Variable parseAcceptMediaType : string -> Error + AcceptMediaType.t.
Variable getAllPaymentInfoFromDatabase : string -> Error + list AddressInformation.t.
Variable getPreferredPaymentInfo :
  list AddressInformation.t -> list AcceptMediaType.t ->
  option (AcceptMediaType.t * AddressInformation.t).
Variable handleHttpError : nat -> string -> option Error -> Response -> Response.

Definition callParse (type : string) : M AcceptMediaType.t :=
  (emit (CallParse type) ;;; lift (parseAcceptMediaType type))%js.

(** [await getAllPaymentInfoFromDatabase(payId)]; a rejected promise is an
    exception. *)
Definition callFetch (payId : string) : M (list AddressInformation.t) :=
  (emit (CallFetch payId) ;;; lift (getAllPaymentInfoFromDatabase payId))%js.

Definition callMatch (records : list AddressInformation.t)
    (sortedAcceptTypes : list AcceptMediaType.t)
    : M (option (AcceptMediaType.t * AddressInformation.t)) :=
  (emit CallMatch ;;; ret (getPreferredPaymentInfo records sortedAcceptTypes))%js.

Definition callHandleHttpError (code : nat) (msg : string) (err : option Error)
    : M unit :=
  fun w => (Ok tt, mkWorld (handleHttpError code msg err (res w)) (heap w)
                           (log w ++ [CallHandleHttpError code msg])).

Definition getPaymentInfoForAcceptTypes (payId : string)
    (sortedAcceptTypes : list AcceptMediaType.t)
    : M (option (AcceptMediaType.t * AddressInformation.t)) :=
  if Nat.eqb (length sortedAcceptTypes) 0 then ret None
  else
    (allPaymentInformation <- callFetch payId ;;
     callMatch allPaymentInformation sortedAcceptTypes)%js.

Definition payIdUrl (req : Request) : string :=
  "https://" +:+ hostname req +:+ url req.

Definition getPaymentInfo (req : Request) : M unit :=
  match urlToPayId (payIdUrl req) with
  | inl err => callHandleHttpError HttpStatus.BadRequest (message err) (Some err)
  | inr payId =>
      let acceptHeaderTypes := accepts req in
      if Nat.eqb (length acceptHeaderTypes) 0 then
        callHandleHttpError HttpStatus.BadRequest missingAcceptHeaderMessage None
      else
        (parsed <- try_ (mapM callParse acceptHeaderTypes) ;;
         match parsed with
         | inl _ => callHandleHttpError 400 invalidAcceptHeaderMessage None
         | inr parsedAcceptTypes =>
             result <- getPaymentInfoForAcceptTypes payId parsedAcceptTypes ;;
             match result with
             | None =>
                 callHandleHttpError HttpStatus.NotFound
                   (notFoundMessage payId parsedAcceptTypes) None
             | Some (acceptType, paymentInformation) =>
                 res_set "Content-Type" (AcceptMediaType.mediaType acceptType) ;;;
                 response <- shapeResponse paymentInformation ;;
                 set_local "payId" (VString payId) ;;;
                 set_local "paymentInformation" (VRef response) ;;;
                 set_local "response" (VRef response) ;;;
                 next
             end
         end)%js
  end.
End Middleware.

(** ** Outcomes of a run *)

(** The world after more calls were traced. *)
Definition addLog (w : World) (es : list Event) : World :=
  mkWorld (res w) (heap w) (log w ++ es).

(** The payload the middleware shapes for a record. *)
Definition shaped (r : AddressInformation.t) : PaymentInformation :=
  mkPaymentInformation
    (if String.eqb (AddressInformation.payment_network r) "ACH"
     then AchAddress else CryptoAddress)
    (AddressInformation.details r).

(** The response object after a successful resolution. *)
Definition succeeded (payId : string) (a : AcceptMediaType.t) (l : loc) (r0 : Response)
    : Response :=
  mkResponse (<["Content-Type" :=
                  Express.headerValue "Content-Type" (AcceptMediaType.mediaType a)]>
                (headers r0))
             (<["response" := VRef l]>
                (<["paymentInformation" := VRef l]>
                   (<["payId" := VString payId]> (locals r0))))
             (statusCode r0) (body r0).

Section Outcomes.
Variable urlToPayId : string -> Error + string.
Variable parseAcceptMediaType : string -> Error + AcceptMediaType.t.
Variable getAllPaymentInfoFromDatabase : string -> Error + list AddressInformation.t.
Variable getPreferredPaymentInfo :
  list AddressInformation.t -> list AcceptMediaType.t ->
  option (AcceptMediaType.t * AddressInformation.t).
Variable handleHttpError : nat -> string -> option Error -> Response -> Response.

(** Every token parses, to the corresponding accept type. *)
Definition parsesTo (tokens : list string) (parsed : list AcceptMediaType.t) : Prop :=
  Forall2 (fun t a => parseAcceptMediaType t = inr a) tokens parsed.

(** The world after [handleHttpError(code, msg, res)]. *)
Definition failed (code : nat) (msg : string) (err : option Error) (w : World) : World :=
  mkWorld (handleHttpError code msg err (res w)) (heap w)
          (log w ++ [CallHandleHttpError code msg]).

(** The paths through [getPaymentInfo]: the four failures, the rejected
    fetch and the success. *)
Inductive Path (req : Request) (w : World) : Result unit * World -> Prop :=
| PathInvalidIdentifier err :
    urlToPayId (payIdUrl req) = inl err ->
    Path req w (Ok tt, failed HttpStatus.BadRequest (message err) (Some err) w)
| PathMissingAccept payId :
    urlToPayId (payIdUrl req) = inr payId ->
    accepts req = [] ->
    Path req w (Ok tt, failed HttpStatus.BadRequest missingAcceptHeaderMessage None w)
| PathInvalidAccept payId pre t post parsed e :
    urlToPayId (payIdUrl req) = inr payId ->
    accepts req = pre ++ t :: post ->
    parsesTo pre parsed ->
    parseAcceptMediaType t = inl e ->
    Path req w (Ok tt, failed 400 invalidAcceptHeaderMessage None
                         (addLog w (CallParse <$> (pre ++ [t]))))
| PathFetchRejected payId parsed e :
    urlToPayId (payIdUrl req) = inr payId ->
    accepts req <> [] ->
    parsesTo (accepts req) parsed ->
    getAllPaymentInfoFromDatabase payId = inl e ->
    Path req w (Throw e, addLog w ((CallParse <$> accepts req) ++ [CallFetch payId]))
| PathNotFound payId parsed records :
    urlToPayId (payIdUrl req) = inr payId ->
    accepts req <> [] ->
    parsesTo (accepts req) parsed ->
    getAllPaymentInfoFromDatabase payId = inr records ->
    getPreferredPaymentInfo records parsed = None ->
    Path req w (Ok tt, failed HttpStatus.NotFound (notFoundMessage payId parsed) None
                         (addLog w ((CallParse <$> accepts req)
                                    ++ [CallFetch payId; CallMatch])))
| PathSuccess payId parsed records a r l h' :
    urlToPayId (payIdUrl req) = inr payId ->
    accepts req <> [] ->
    parsesTo (accepts req) parsed ->
    getAllPaymentInfoFromDatabase payId = inr records ->
    getPreferredPaymentInfo records parsed = Some (a, r) ->
    h' !! l = Some (shaped r) ->
    heap w ⊆ h' ->
    Path req w (Ok tt, mkWorld (succeeded payId a l (res w)) h'
                         (log w ++ (CallParse <$> accepts req)
                          ++ [CallFetch payId; CallMatch;
                              CallNext (succeeded payId a l (res w)) h'])).
End Outcomes.

(** ** A concrete deployment

    Stand-ins for the collaborators of one server, used only to run the
    middleware on concrete requests: two PayIDs, four media types (network and
    environment in lower case, as the spec normalises them), the spec's matcher
    and an error handler that sends the status and the message.  The theorems
    about [getPaymentInfo] hold for all collaborators, not just these. *)

Module Deployment.

Definition urlToPayId (u : string) : Error + string :=
  if String.eqb u "https://example.com/alice" then inr "alice$example.com"
  else if String.eqb u "https://example.com/bob" then inr "bob$example.com"
  else inl (mkError "Bad input. PayID URLs must have a path.").

Definition parseAcceptMediaType (type : string) : Error + AcceptMediaType.t :=
  if String.eqb type "application/xrpl-mainnet+json"
  then inr (AcceptMediaType.mk type "xrpl" (Some "mainnet"))
  else if String.eqb type "application/xrpl-testnet+json"
  then inr (AcceptMediaType.mk type "xrpl" (Some "testnet"))
  else if String.eqb type "application/btc-mainnet+json"
  then inr (AcceptMediaType.mk type "btc" (Some "mainnet"))
  else if String.eqb type "application/ach+json"
  then inr (AcceptMediaType.mk type "ach" None)
  else inl (mkError ("Invalid Accept media type " +:+ type)).

Definition handleHttpError (code : nat) (msg : string) (err : option Error)
    (r : Response) : Response :=
  mkResponse (headers r) (locals r) (Some code) (Some msg).

(** A database is the list of records stored for each PayID. *)
Definition database (rows : list (string * list AddressInformation.t))
    (payId : string) : Error + list AddressInformation.t :=
  inr (default [] (snd <$> find (fun row => String.eqb (fst row) payId) rows)).

Definition run (rows : list (string * list AddressInformation.t))
    (req : Request) : M unit :=
  getPaymentInfo urlToPayId parseAcceptMediaType (database rows)
    AcceptHeader.getPreferredPaymentInfo handleHttpError req.

Definition w0 : World := mkWorld (mkResponse ∅ ∅ None None) ∅ [].

Definition xrplTestnet : AddressInformation.t :=
  AddressInformation.mk "xrpl" (Some "testnet") crypto_address "TVacixsWrqyWCr98eTYP7FSzE9NwupESR4TrnijN7fccNiS".

Definition achOnly : AddressInformation.t :=
  AddressInformation.mk "ach" None ach_address "000123456789/123456789".

(** A record whose payload is a bank account although its network is a
    ledger, and a record whose kind is neither of the recognised two. *)
Definition bankOnLedger : AddressInformation.t :=
  AddressInformation.mk "xrpl" (Some "mainnet") ach_address "000123456789/123456789".

Definition otherKind : AddressInformation.t :=
  AddressInformation.mk "xrpl" (Some "mainnet") "iban-address" "DE89370400440532013000".

Definition xrplMainnetType : AcceptMediaType.t :=
  AcceptMediaType.mk "application/xrpl-mainnet+json" "xrpl" (Some "mainnet").

Definition xrplTestnetType : AcceptMediaType.t :=
  AcceptMediaType.mk "application/xrpl-testnet+json" "xrpl" (Some "testnet").

Definition btcMainnetType : AcceptMediaType.t :=
  AcceptMediaType.mk "application/btc-mainnet+json" "btc" (Some "mainnet").

Definition alice (types : list string) : Request :=
  mkRequest "example.com" "/alice" types.

(** A server that also knows a payment network whose name is [json]: its
    media type follows the grammar of the Accept header like any other. *)
Definition jsonMainnetType : AcceptMediaType.t :=
  AcceptMediaType.mk "application/json-mainnet+json" "json" (Some "mainnet").

Definition parseWithJsonNetwork (type : string) : Error + AcceptMediaType.t :=
  if String.eqb type "application/json-mainnet+json" then inr jsonMainnetType
  else parseAcceptMediaType type.

Definition jsonMainnet : AddressInformation.t :=
  AddressInformation.mk "json" (Some "mainnet") crypto_address "rPEPPER7kfTD9w2To4CQk6UCfuHM9c6GDY".

End Deployment.

(** ** The application ([src/app.ts])

    The class [App]: two Express applications, the two servers they listen
    on and the two recurring metrics timers.  The object is passed explicitly as
    [this]; the Node runtime is the supply of server handles and the trace of the
    calls made to it and to the collaborators. *)

Module App.

(** What is mounted on an Express application: the three routers of
    [./routes] and the [sendSuccess] middleware. *)
Inductive Handler := publicAPIRouter | privateAPIRouter | metricsRouter | sendSuccess.

(** The two Express applications the constructor creates. *)
Inductive Api := PublicAPI | PrivateAPI.

(** A [NodeJS.Timeout]: its identity and whether it holds the event loop. *)
Record Timeout := mkTimeout { timer : nat; hasRef : bool }.

(** [timeout.ref()] makes the timer hold the event loop and returns it. *)
Definition ref (t : Timeout) : Timeout := mkTimeout (timer t) true.

Inductive Call :=
| SyncDatabaseSchema
| Listen (api : Api) (port : nat) (server : nat)
| ScheduleRecurringMetricsPush
| ScheduleRecurringPayIdCountMetrics
| ServerClose (server : nat)
| ClearInterval (t : nat).

Record Node := mkNode { nextServer : nat; calls : list Call }.

Definition call (c : Call) (n : Node) : Node := mkNode (nextServer n) (calls n ++ [c]).

(** The fields of the class; an Express application is the list of what was
    mounted on it with [use], in order. *)
Record t := mk {
  publicAPIExpress : list (string * Handler);
  privateAPIExpress : list (string * Handler);
  publicAPIServer : option nat;
  privateAPIServer : option nat;
  recurringMetricsPushTimeout : option Timeout;
  recurringMetricsTimeout : option Timeout
}.

(** The constructor: two empty applications, nothing else set. *)
Definition new : t := mk [] [] None None None None.

Record AppConfig := mkAppConfig { publicAPIPort : nat; privateAPIPort : nat }.

(** The ports Node accepts: 0 to 65535. *)
Definition validPort (port : nat) : bool := (N.of_nat port <? 65536)%N.

(** The calls of a trace that start a server, stop one, stop a timer. *)
Definition launched (cs : list Call) : list nat :=
  omap (fun c => match c with Listen _ _ s => Some s | _ => None end) cs.

Definition closed (cs : list Call) : list nat :=
  omap (fun c => match c with ServerClose s => Some s | _ => None end) cs.

Definition cleared (cs : list Call) : list nat :=
  omap (fun c => match c with ClearInterval i => Some i | _ => None end) cs.

(** The calls made from the runtime [n] on. *)
Definition since (n n' : Node) : list Call := drop (length (calls n)) (calls n').

Section Lifecycle.
(** [./config], [./db/syncDatabaseSchema], [./services/metrics] and
    [./services/payIdReport] are outside [app.ts]: the database part of the
    configuration is opaque, the schema sync resolves or rejects, and each
    scheduler returns a timer or nothing.  [badPort] is the [RangeError] Node
    throws for a port it refuses. *)
Variable DatabaseConfig : Type.
Variable syncDatabaseSchema : DatabaseConfig -> Error + unit.
Variable scheduleRecurringMetricsPush : Node -> option Timeout.
Variable scheduleRecurringPayIdCountMetrics : Node -> option Timeout.
Variable badPort : nat -> Error.

(** [app.listen(port, callback)]: a new server, unless the port is outside
    0..65535, which Node refuses by throwing at once.  The callback only logs
    once the server is listening and is left out. *)
Definition listen (api : Api) (port : nat) (n : Node) : (Error + nat) * Node :=
  if validPort port
  then (inr (nextServer n),
        mkNode (S (nextServer n)) (calls n ++ [Listen api port (nextServer n)]))
  else (inl (badPort port), n).

Definition launchPublicAPI (appConfig : AppConfig) (this : t) (n : Node)
    : (Error + nat) * t * Node :=
  let this1 := mk (publicAPIExpress this ++ [("/", publicAPIRouter)])
                  (privateAPIExpress this) (publicAPIServer this)
                  (privateAPIServer this) (recurringMetricsPushTimeout this)
                  (recurringMetricsTimeout this) in
  let (server, n1) := listen PublicAPI (publicAPIPort appConfig) n in
  (server, this1, n1).

Definition launchPrivateAPI (appConfig : AppConfig) (this : t) (n : Node)
    : (Error + nat) * t * Node :=
  let this1 := mk (publicAPIExpress this)
                  (privateAPIExpress this
                   ++ [("/users", privateAPIRouter)]
                   ++ [("/metrics", metricsRouter)]
                   ++ [("/status/health", sendSuccess)])
                  (publicAPIServer this)
                  (privateAPIServer this) (recurringMetricsPushTimeout this)
                  (recurringMetricsTimeout this) in
  let (server, n1) := listen PrivateAPI (privateAPIPort appConfig) n in
  (server, this1, n1).

Record Config := mkConfig { database : DatabaseConfig; app : AppConfig }.

Definition init (initConfig : Config) (this : t) (n : Node) : Result unit * t * Node :=
  let n0 := call SyncDatabaseSchema n in
  match syncDatabaseSchema (database initConfig) with
  | inl e => (Throw e, this, n0)
  | inr _ =>
      let '(started, this1, n1) := launchPublicAPI (app initConfig) this n0 in
      match started with
      | inl e => (Throw e, this1, n1)
      | inr server =>
          let this2 := mk (publicAPIExpress this1) (privateAPIExpress this1)
                          (Some server) (privateAPIServer this1)
                          (recurringMetricsPushTimeout this1)
                          (recurringMetricsTimeout this1) in
          let '(started', this3, n2) := launchPrivateAPI (app initConfig) this2 n1 in
          match started' with
          | inl e => (Throw e, this3, n2)
          | inr server' =>
              let this4 := mk (publicAPIExpress this3) (privateAPIExpress this3)
                              (publicAPIServer this3) (Some server')
                              (recurringMetricsPushTimeout this3)
                              (recurringMetricsTimeout this3) in
              let n3 := call ScheduleRecurringMetricsPush n2 in
              let this5 := mk (publicAPIExpress this4) (privateAPIExpress this4)
                              (publicAPIServer this4) (privateAPIServer this4)
                              (scheduleRecurringMetricsPush n2)
                              (recurringMetricsTimeout this4) in
              let n4 := call ScheduleRecurringPayIdCountMetrics n3 in
              let this6 := mk (publicAPIExpress this5) (privateAPIExpress this5)
                              (publicAPIServer this5) (privateAPIServer this5)
                              (recurringMetricsPushTimeout this5)
                              (scheduleRecurringPayIdCountMetrics n3) in
              (Ok tt, this6, n4)
          end
      end
  end.

End Lifecycle.

(** [server?.close()]. *)
Definition closeServer (server : option nat) (n : Node) : Node :=
  match server with
  | Some s => call (ServerClose s) n
  | None => n
  end.

(** [if (timeout?.hasRef()) clearInterval(timeout.ref())]. *)
Definition clearTimer (timeout : option Timeout) (n : Node) : Node :=
  match timeout with
  | Some t => if hasRef t then call (ClearInterval (timer (ref t))) n else n
  | None => n
  end.

Definition close (this : t) (n : Node) : Node :=
  let n1 := closeServer (publicAPIServer this) n in
  let n2 := closeServer (privateAPIServer this) n1 in
  let n3 := clearTimer (recurringMetricsTimeout this) n2 in
  clearTimer (recurringMetricsPushTimeout this) n3.

End App.

(** ** Reading a trace *)

Definition parseCalls (es : list Event) : list string :=
  omap (fun e => match e with CallParse t => Some t | _ => None end) es.

(** A call to the parser, the record store or the matcher. *)
Definition is_call (e : Event) : bool :=
  match e with
  | CallParse _ | CallFetch _ | CallMatch => true
  | _ => false
  end.

(** The call that ends a run: the error handler or the next middleware. *)
Definition is_terminal (e : Event) : bool := is_http_error e || is_next e.

(** ** Runs of the middleware, path by path *)

Lemma addLog_nil w : addLog w [] = w.
Proof. destruct w; unfold addLog; simpl. by rewrite app_nil_r. Qed.

Lemma addLog_addLog w es es' : addLog (addLog w es) es' = addLog w (es ++ es').
Proof. unfold addLog; simpl. by rewrite app_assoc. Qed.

Lemma emitted_addLog w es : emitted w (addLog w es) = es.
Proof. unfold emitted, addLog; simpl. by rewrite drop_app_length. Qed.

Section Paths.
Variable urlToPayId : string -> Error + string.
Variable parseAcceptMediaType : string -> Error + AcceptMediaType.t.
Variable getAllPaymentInfoFromDatabase : string -> Error + list AddressInformation.t.
Variable getPreferredPaymentInfo :
  list AddressInformation.t -> list AcceptMediaType.t ->
  option (AcceptMediaType.t * AddressInformation.t).
Variable handleHttpError : nat -> string -> option Error -> Response -> Response.

Abbreviation parsesTo := (parsesTo parseAcceptMediaType).
Abbreviation failed := (failed handleHttpError).
Abbreviation Path :=
  (Path urlToPayId parseAcceptMediaType getAllPaymentInfoFromDatabase
     getPreferredPaymentInfo handleHttpError).
Abbreviation callParse_ := (callParse parseAcceptMediaType).
Abbreviation getPaymentInfoForAcceptTypes_ :=
  (getPaymentInfoForAcceptTypes getAllPaymentInfoFromDatabase getPreferredPaymentInfo).
Abbreviation getPaymentInfo_ :=
  (getPaymentInfo urlToPayId parseAcceptMediaType getAllPaymentInfoFromDatabase
     getPreferredPaymentInfo handleHttpError).

Lemma mapM_callParse_ok tokens parsed w :
  parsesTo tokens parsed ->
  mapM callParse_ tokens w = (Ok parsed, addLog w (CallParse <$> tokens)).
Proof.
  intros H. revert w. induction H as [|t a ts ps Ht _ IH]; intros w.
  - simpl. unfold ret. by rewrite addLog_nil.
  - simpl. unfold bind at 1. unfold callParse at 1.
    unfold bind at 1, emit, lift. rewrite Ht. simpl.
    unfold bind at 1. rewrite IH. unfold ret, addLog. simpl.
    by rewrite <- app_assoc.
Qed.

Lemma mapM_callParse_throw pre t post parsed e w :
  parsesTo pre parsed ->
  parseAcceptMediaType t = inl e ->
  mapM callParse_ (pre ++ t :: post) w
  = (Throw e, addLog w (CallParse <$> (pre ++ [t]))).
Proof.
  intros H Ht. revert w. induction H as [|t' a ts ps Ht' _ IH]; intros w.
  - simpl. unfold bind at 1. unfold callParse at 1.
    unfold bind at 1, emit, lift. by rewrite Ht.
  - simpl. unfold bind at 1. unfold callParse at 1.
    unfold bind at 1, emit, lift. rewrite Ht'. simpl.
    unfold bind at 1. rewrite IH. unfold addLog. simpl.
    by rewrite <- app_assoc.
Qed.

(** A list with a token that does not parse splits at the first such token. *)
Lemma first_bad_token tokens :
  Exists (fun t => exists e, parseAcceptMediaType t = inl e) tokens ->
  exists pre t post parsed e,
    tokens = pre ++ t :: post /\ parsesTo pre parsed /\ parseAcceptMediaType t = inl e.
Proof.
  induction tokens as [|x xs IH]; intros H.
  - inversion H.
  - destruct (parseAcceptMediaType x) as [e|a] eqn:Hx.
    + exists [], x, xs, [], e. repeat split; [constructor | done].
    + inversion H as [? ? [e He]|? ? Hxs]; subst; [congruence|].
      destruct (IH Hxs) as (pre & t & post & parsed & e & -> & Hp & Ht).
      exists (x :: pre), t, post, (a :: parsed), e.
      repeat split; [by constructor | done].
Qed.

Lemma nonempty_length {A} (l : list A) : l <> [] -> Nat.eqb (length l) 0 = false.
Proof. by destruct l. Qed.

Lemma parsed_nonempty tokens parsed :
  tokens <> [] -> parsesTo tokens parsed -> parsed <> [].
Proof. intros Hne H. by destruct H. Qed.

Lemma lookup_no_prefs payId w :
  getPaymentInfoForAcceptTypes_ payId [] w = (Ok None, w).
Proof. reflexivity. Qed.

Lemma lookup_fetched payId sorted records w :
  sorted <> [] ->
  getAllPaymentInfoFromDatabase payId = inr records ->
  getPaymentInfoForAcceptTypes_ payId sorted w
  = (Ok (getPreferredPaymentInfo records sorted), addLog w [CallFetch payId; CallMatch]).
Proof.
  intros Hne Hdb. destruct sorted as [|a sorted]; [done|].
  unfold getPaymentInfoForAcceptTypes, callFetch, callMatch, bind, emit, lift, ret, addLog.
  simpl. rewrite Hdb. simpl. by rewrite <- app_assoc.
Qed.

Lemma lookup_rejected payId sorted e w :
  sorted <> [] ->
  getAllPaymentInfoFromDatabase payId = inl e ->
  getPaymentInfoForAcceptTypes_ payId sorted w = (Throw e, addLog w [CallFetch payId]).
Proof.
  intros Hne Hdb. destruct sorted as [|a sorted]; [done|].
  unfold getPaymentInfoForAcceptTypes, callFetch, callMatch, bind, emit, lift, ret, addLog.
  simpl. by rewrite Hdb.
Qed.

Lemma shapeResponse_spec r w :
  exists l h',
    shapeResponse r w = (Ok l, mkWorld (res w) h' (log w))
    /\ h' !! l = Some (shaped r) /\ heap w ⊆ h'.
Proof.
  unfold shapeResponse, shaped, bind, alloc, ret. simpl.
  set (l1 := fresh (dom (heap w))).
  assert (H1 : heap w !! l1 = None) by (apply not_elem_of_dom, is_fresh).
  destruct (String.eqb _ _).
  - set (h1 := <[l1 := _]> (heap w)).
    set (l2 := fresh (dom h1)).
    assert (H2 : h1 !! l2 = None) by (apply not_elem_of_dom, is_fresh).
    eexists l2, _. split; [reflexivity|]. split.
    + apply lookup_insert_eq.
    + transitivity h1; by apply insert_subseteq.
  - eexists l1, _. split; [reflexivity|]. split.
    + apply lookup_insert_eq.
    + by apply insert_subseteq.
Qed.

Lemma path_invalid_identifier req err w :
  urlToPayId (payIdUrl req) = inl err ->
  getPaymentInfo_ req w = (Ok tt, failed HttpStatus.BadRequest (message err) (Some err) w).
Proof. intros H. unfold getPaymentInfo. by rewrite H. Qed.

Lemma path_missing_accept req payId w :
  urlToPayId (payIdUrl req) = inr payId ->
  accepts req = [] ->
  getPaymentInfo_ req w
  = (Ok tt, failed HttpStatus.BadRequest missingAcceptHeaderMessage None w).
Proof. intros H Ha. unfold getPaymentInfo. by rewrite H, Ha. Qed.

Lemma path_invalid_accept req payId pre t post parsed e w :
  urlToPayId (payIdUrl req) = inr payId ->
  accepts req = pre ++ t :: post ->
  parsesTo pre parsed ->
  parseAcceptMediaType t = inl e ->
  getPaymentInfo_ req w
  = (Ok tt, failed 400 invalidAcceptHeaderMessage None
              (addLog w (CallParse <$> (pre ++ [t])))).
Proof.
  intros H Ha Hp Ht. unfold getPaymentInfo. rewrite H, Ha.
  cbv zeta. rewrite nonempty_length by (by destruct pre).
  unfold bind at 1, try_. by rewrite (mapM_callParse_throw _ _ _ _ _ _ Hp Ht).
Qed.

Lemma path_fetch_rejected req payId parsed e w :
  urlToPayId (payIdUrl req) = inr payId ->
  accepts req <> [] ->
  parsesTo (accepts req) parsed ->
  getAllPaymentInfoFromDatabase payId = inl e ->
  getPaymentInfo_ req w
  = (Throw e, addLog w ((CallParse <$> accepts req) ++ [CallFetch payId])).
Proof.
  intros H Ha Hp Hdb. unfold getPaymentInfo. rewrite H.
  cbv zeta. rewrite (nonempty_length _ Ha).
  unfold bind at 1, try_. rewrite (mapM_callParse_ok _ _ _ Hp).
  unfold bind at 1. rewrite (lookup_rejected _ parsed e); [|by eapply parsed_nonempty|done].
  by rewrite addLog_addLog.
Qed.

Lemma path_not_found req payId parsed records w :
  urlToPayId (payIdUrl req) = inr payId ->
  accepts req <> [] ->
  parsesTo (accepts req) parsed ->
  getAllPaymentInfoFromDatabase payId = inr records ->
  getPreferredPaymentInfo records parsed = None ->
  getPaymentInfo_ req w
  = (Ok tt, failed HttpStatus.NotFound (notFoundMessage payId parsed) None
              (addLog w ((CallParse <$> accepts req) ++ [CallFetch payId; CallMatch]))).
Proof.
  intros H Ha Hp Hdb Hm. unfold getPaymentInfo. rewrite H.
  cbv zeta. rewrite (nonempty_length _ Ha).
  unfold bind at 1, try_. rewrite (mapM_callParse_ok _ _ _ Hp).
  unfold bind at 1. rewrite (lookup_fetched _ parsed records); [|by eapply parsed_nonempty|done].
  by rewrite Hm, addLog_addLog.
Qed.

Lemma path_success req payId parsed records a r w :
  urlToPayId (payIdUrl req) = inr payId ->
  accepts req <> [] ->
  parsesTo (accepts req) parsed ->
  getAllPaymentInfoFromDatabase payId = inr records ->
  getPreferredPaymentInfo records parsed = Some (a, r) ->
  exists l h',
    getPaymentInfo_ req w
    = (Ok tt, mkWorld (succeeded payId a l (res w)) h'
                (log w ++ (CallParse <$> accepts req)
                 ++ [CallFetch payId; CallMatch; CallNext (succeeded payId a l (res w)) h']))
    /\ h' !! l = Some (shaped r) /\ heap w ⊆ h'.
Proof.
  intros H Ha Hp Hdb Hm. unfold getPaymentInfo. rewrite H.
  cbv zeta. rewrite (nonempty_length _ Ha).
  unfold bind at 1, try_. rewrite (mapM_callParse_ok _ _ _ Hp).
  unfold bind at 1. rewrite (lookup_fetched _ parsed records); [|by eapply parsed_nonempty|done].
  rewrite Hm, addLog_addLog.
  unfold bind at 1, res_set. unfold bind at 1.
  match goal with |- context [shapeResponse r ?w1] =>
    destruct (shapeResponse_spec r w1) as (l & h' & -> & Hl & Hsub) end.
  exists l, h'. split; [|done].
  unfold bind, set_local, next, emit, succeeded, addLog. simpl.
  by rewrite <- !app_assoc.
Qed.

Lemma emitted_failed code msg err es w :
  emitted w (failed code msg err (addLog w es)) = es ++ [CallHandleHttpError code msg].
Proof.
  unfold emitted, failed, addLog; simpl. by rewrite <- app_assoc, drop_app_length.
Qed.

Lemma emitted_failed_now code msg err w :
  emitted w (failed code msg err w) = [CallHandleHttpError code msg].
Proof. unfold emitted, failed; simpl. by rewrite drop_app_length. Qed.

(** Either every token parses or some token does not. *)
Lemma parse_all_or_bad tokens :
  (exists parsed, parsesTo tokens parsed)
  \/ Exists (fun t => exists e, parseAcceptMediaType t = inl e) tokens.
Proof.
  induction tokens as [|t ts [[parsed IH]|IH]].
  - left. exists []. constructor.
  - destruct (parseAcceptMediaType t) as [e|a] eqn:Ht.
    + right. constructor. by exists e.
    + left. exists (a :: parsed). by constructor.
  - right. by constructor.
Qed.

Lemma getPaymentInfo_path req w : Path req w (getPaymentInfo_ req w).
Proof.
  destruct (urlToPayId (payIdUrl req)) as [err|payId] eqn:Hurl.
  { rewrite (path_invalid_identifier _ _ _ Hurl). by constructor. }
  destruct (decide (accepts req = [])) as [Ha|Ha].
  { rewrite (path_missing_accept _ _ _ Hurl Ha). by econstructor. }
  destruct (parse_all_or_bad (accepts req)) as [[parsed Hp]|Hbad].
  - destruct (getAllPaymentInfoFromDatabase payId) as [e|records] eqn:Hdb.
    { rewrite (path_fetch_rejected _ _ _ _ _ Hurl Ha Hp Hdb). by econstructor. }
    destruct (getPreferredPaymentInfo records parsed) as [[a r]|] eqn:Hm.
    + destruct (path_success _ _ _ _ _ _ w Hurl Ha Hp Hdb Hm) as (l & h' & -> & Hl & Hsub).
      by econstructor.
    + rewrite (path_not_found _ _ _ _ _ Hurl Ha Hp Hdb Hm). by econstructor.
  - destruct (first_bad_token _ Hbad) as (pre & t & post & parsed & e & Hsplit & Hp & Ht).
    rewrite (path_invalid_accept _ _ _ _ _ _ _ _ Hurl Hsplit Hp Ht). by econstructor.
Qed.

End Paths.

(** ** The matcher *)

Section Matcher.
Import AcceptHeader.

Lemma find_matches_none p records :
  Forall (fun r => matches p r = false) records -> find (matches p) records = None.
Proof.
  induction 1 as [|r rs Hr _ IH]; [done|]. simpl. by rewrite Hr.
Qed.

Lemma find_matches_some p records :
  Exists (fun r => matches p r = true) records ->
  exists r, find (matches p) records = Some r.
Proof.
  induction 1 as [r rs Hr|r rs _ [r' IH]]; simpl.
  - rewrite Hr. by exists r.
  - destruct (matches p r); [by exists r | by exists r'].
Qed.

(** Preferences without any matching record are passed over. *)
Lemma getPreferredPaymentInfo_skip records hi rest :
  Forall (fun q => Forall (fun r => matches q r = false) records) hi ->
  getPreferredPaymentInfo records (hi ++ rest) = getPreferredPaymentInfo records rest.
Proof.
  induction 1 as [|q qs Hq _ IH]; [done|].
  simpl. by rewrite (find_matches_none _ _ Hq).
Qed.

(** What the matcher returns is a preference of the list and a record of
    the set that satisfies it. *)
Lemma getPreferredPaymentInfo_sound records prefs a r :
  getPreferredPaymentInfo records prefs = Some (a, r) ->
  a ∈ prefs /\ In r records /\ matches a r = true.
Proof.
  induction prefs as [|p ps IH]; [done|]. simpl.
  destruct (find (matches p) records) as [r'|] eqn:Hfind.
  - intros [= <- <-]. apply find_some in Hfind as [Hin Hm].
    split; [left | done].
  - intros H. destruct (IH H) as (Ha & Hr & Hm). split; [by right | done].
Qed.

(** Preferences that no record satisfies give no match; in particular an
    empty record set gives none. *)
Lemma getPreferredPaymentInfo_no_match records prefs :
  Forall (fun q => Forall (fun r => matches q r = false) records) prefs ->
  getPreferredPaymentInfo records prefs = None.
Proof.
  intros H. rewrite <- (app_nil_r prefs). by rewrite getPreferredPaymentInfo_skip.
Qed.

Lemma getPreferredPaymentInfo_no_records prefs :
  getPreferredPaymentInfo [] prefs = None.
Proof. apply getPreferredPaymentInfo_no_match, Forall_true. constructor. Qed.

Lemma matches_agree a r :
  matches a r = true ->
  AcceptMediaType.paymentNetwork a = AddressInformation.payment_network r
  /\ (AcceptMediaType.environment a = None
      \/ AcceptMediaType.environment a = AddressInformation.environment r).
Proof.
  unfold matches. intros [Hn He]%andb_true_iff. split.
  - by apply String.eqb_eq.
  - destruct (AcceptMediaType.environment a) as [e|]; [|by left].
    right. by apply bool_decide_eq_true in He.
Qed.

End Matcher.

(** ** Traces *)

Lemma absent_from_trace (f : Event -> bool) e es :
  f e = true -> Forall (fun x => f x = false) es -> e ∉ es.
Proof.
  intros He Hes Hin. rewrite Forall_forall in Hes.
  specialize (Hes _ Hin). congruence.
Qed.

Lemma parse_calls_only (f : Event -> bool) tokens :
  (forall t, f (CallParse t) = false) ->
  Forall (fun x => f x = false) (CallParse <$> tokens).
Proof. intros Hf. by apply Forall_fmap, Forall_true. Qed.

(** The one error at the end of a failure's trace. *)
Lemma the_error_of_a_failure es code msg c0 m0 :
  Forall (fun x => is_http_error x = false) es ->
  CallHandleHttpError code msg ∈ es ++ [CallHandleHttpError c0 m0] ->
  code = c0 /\ msg = m0.
Proof.
  intros Hes [Hin|Hin]%elem_of_app.
  - exfalso. revert Hin. by apply (absent_from_trace is_http_error).
  - apply list_elem_of_singleton in Hin. by injection Hin.
Qed.

(** [e] is of the kind [f] recognises and the trace holds no event of it. *)
Ltac absent f :=
  apply (absent_from_trace f);
  [ reflexivity
  | rewrite ?Forall_app; repeat split;
    try (apply parse_calls_only; reflexivity); repeat constructor ].

(** ** Properties of [getPaymentInfoForAcceptTypes] *)

(** C3: with the matcher of the spec, the lookup returns the match of the
    first preference, in ranked order, that has any matching record: when every
    preference ranked above [p] matches no record at all and some record matches
    [p], the result is [p] with the first record that satisfies [p], whatever
    follows [p] in the list. *)
Theorem preference_order_dominates :
  forall (db : string -> Error + list AddressInformation.t) payId records hi p lo w,
    db payId = inr records ->
    Forall (fun q => Forall (fun r => AcceptHeader.matches q r = false) records) hi ->
    Exists (fun r => AcceptHeader.matches p r = true) records ->
    exists r,
      find (AcceptHeader.matches p) records = Some r
      /\ AcceptHeader.getPreferredPaymentInfo records (hi ++ p :: lo) = Some (p, r)
      /\ fst (getPaymentInfoForAcceptTypes db AcceptHeader.getPreferredPaymentInfo
                payId (hi ++ p :: lo) w) = Ok (Some (p, r)).
Proof.
  intros db payId records hi p lo w Hdb Hhi Hp.
  destruct (find_matches_some _ _ Hp) as [r Hr]. exists r.
  assert (Hm : AcceptHeader.getPreferredPaymentInfo records (hi ++ p :: lo) = Some (p, r)).
  { rewrite (getPreferredPaymentInfo_skip _ _ _ Hhi). simpl. by rewrite Hr. }
  repeat split; [done..|].
  rewrite (lookup_fetched db _ payId (hi ++ p :: lo) records); [|by destruct hi|done].
  cbn [fst]. by rewrite Hm.
Qed.

Lemma preference_order_dominates_witness :
  fst (getPaymentInfoForAcceptTypes
         (Deployment.database [("alice$example.com", [Deployment.xrplTestnet])])
         AcceptHeader.getPreferredPaymentInfo "alice$example.com"
         ([Deployment.xrplMainnetType] ++ Deployment.xrplTestnetType :: []) Deployment.w0)
  = Ok (Some (Deployment.xrplTestnetType, Deployment.xrplTestnet)).
Proof.
  destruct (preference_order_dominates
              (Deployment.database [("alice$example.com", [Deployment.xrplTestnet])])
              "alice$example.com" [Deployment.xrplTestnet]
              [Deployment.xrplMainnetType] Deployment.xrplTestnetType [] Deployment.w0)
    as (r & Hfind & _ & Hrun).
  - reflexivity.
  - repeat constructor.
  - by constructor.
  - vm_compute in Hfind. injection Hfind as <-. exact Hrun.
Defined.

(** C7: with the matcher of the spec, whenever the lookup succeeds the
    accept type and the record it returns agree: the payment networks are equal,
    and the accept type's environment is unset or equal to the record's. *)
Theorem match_agrees_with_record :
  forall (db : string -> Error + list AddressInformation.t) payId sorted w a r,
    fst (getPaymentInfoForAcceptTypes db AcceptHeader.getPreferredPaymentInfo
           payId sorted w) = Ok (Some (a, r)) ->
    AcceptMediaType.paymentNetwork a = AddressInformation.payment_network r
    /\ (AcceptMediaType.environment a = None
        \/ AcceptMediaType.environment a = AddressInformation.environment r).
Proof.
  intros db payId sorted w a r H.
  destruct sorted as [|p ps]; [done|].
  destruct (db payId) as [e|records] eqn:Hdb.
  - by rewrite (lookup_rejected db _ payId (p :: ps) e) in H.
  - rewrite (lookup_fetched db _ payId (p :: ps) records) in H by done.
    cbn [fst] in H. injection H as H.
    apply (getPreferredPaymentInfo_sound records (p :: ps)) in H as (_ & _ & Hm).
    by apply matches_agree.
Qed.

Lemma match_agrees_with_record_witness :
  AcceptMediaType.paymentNetwork Deployment.xrplTestnetType
  = AddressInformation.payment_network Deployment.xrplTestnet
  /\ (AcceptMediaType.environment Deployment.xrplTestnetType = None
      \/ AcceptMediaType.environment Deployment.xrplTestnetType
         = AddressInformation.environment Deployment.xrplTestnet).
Proof.
  apply (match_agrees_with_record
           (Deployment.database [("alice$example.com", [Deployment.xrplTestnet])])
           "alice$example.com" [Deployment.xrplMainnetType; Deployment.xrplTestnetType]
           Deployment.w0).
  reflexivity.
Defined.

(** C9: [getPaymentInfoForAcceptTypes] returns [undefined] without touching
    the record store when the list of accept types is empty, and otherwise
    fetches from the record store exactly once, for the PayID it was given. *)
Theorem fetch_once_unless_no_accept_types :
  forall db matcher payId w,
    getPaymentInfoForAcceptTypes db matcher payId [] w = (Ok None, w)
    /\ forall a sorted,
         fetchCalls (emitted w (snd (getPaymentInfoForAcceptTypes db matcher payId
                                       (a :: sorted) w)))
         = [payId].
Proof.
  intros db matcher payId w. split; [reflexivity|].
  intros a sorted. destruct (db payId) as [e|records] eqn:Hdb.
  - rewrite (lookup_rejected db matcher payId (a :: sorted) e) by done.
    simpl. by rewrite emitted_addLog.
  - rewrite (lookup_fetched db matcher payId (a :: sorted) records) by done.
    simpl. by rewrite emitted_addLog.
Qed.

(** ** Properties of [getPaymentInfo] *)

(** C4: a request whose list of Accept types is empty is answered with the
    missing-Accept-header failure (400 with that message) for every PayID the URL
    normalises to; and whatever the URL, the only collaborator called is
    [handleHttpError] with status 400: never 404, and no token is parsed, no record
    fetched or matched, [next] not called. *)
Theorem empty_accept_is_missing_header :
  forall urlToPayId parseAcceptMediaType getAllPaymentInfoFromDatabase
         getPreferredPaymentInfo handleHttpError req w,
    accepts req = [] ->
    (forall payId,
        urlToPayId (payIdUrl req) = inr payId ->
        getPaymentInfo urlToPayId parseAcceptMediaType getAllPaymentInfoFromDatabase
          getPreferredPaymentInfo handleHttpError req w
        = (Ok tt, failed handleHttpError HttpStatus.BadRequest
                    missingAcceptHeaderMessage None w))
    /\ exists msg,
        emitted w (snd (getPaymentInfo urlToPayId parseAcceptMediaType
                          getAllPaymentInfoFromDatabase getPreferredPaymentInfo
                          handleHttpError req w))
        = [CallHandleHttpError HttpStatus.BadRequest msg].
Proof.
  intros U P D G H req w Ha. split.
  - intros payId Hurl. by apply path_missing_accept with payId.
  - destruct (U (payIdUrl req)) as [err|payId] eqn:Hurl.
    + exists (message err).
      rewrite (path_invalid_identifier U P D G H _ _ w Hurl).
      apply emitted_failed_now.
    + exists missingAcceptHeaderMessage.
      rewrite (path_missing_accept U P D G H _ _ w Hurl Ha).
      apply emitted_failed_now.
Qed.

Lemma empty_accept_is_missing_header_witness :
  Deployment.run [("alice$example.com", [Deployment.achOnly])] (Deployment.alice [])
    Deployment.w0
  = (Ok tt, failed Deployment.handleHttpError HttpStatus.BadRequest
              missingAcceptHeaderMessage None Deployment.w0).
Proof.
  exact (proj1 (empty_accept_is_missing_header
                  Deployment.urlToPayId Deployment.parseAcceptMediaType
                  (Deployment.database [("alice$example.com", [Deployment.achOnly])])
                  AcceptHeader.getPreferredPaymentInfo Deployment.handleHttpError
                  (Deployment.alice []) Deployment.w0 eq_refl)
               "alice$example.com" eq_refl).
Defined.

(** C5: when the URL normalises to a PayID and some Accept type does not
    parse, the whole request is answered with the invalid-Accept-header failure
    (400 with that message).  The types are parsed in order up to the first one
    that does not parse; nothing is fetched or matched with the ones that did. *)
Theorem one_bad_token_invalidates_header :
  forall urlToPayId parseAcceptMediaType getAllPaymentInfoFromDatabase
         getPreferredPaymentInfo handleHttpError req w payId,
    urlToPayId (payIdUrl req) = inr payId ->
    Exists (fun t => exists e, parseAcceptMediaType t = inl e) (accepts req) ->
    exists tried,
      tried `prefix_of` accepts req
      /\ getPaymentInfo urlToPayId parseAcceptMediaType getAllPaymentInfoFromDatabase
           getPreferredPaymentInfo handleHttpError req w
         = (Ok tt, failed handleHttpError 400 invalidAcceptHeaderMessage None
                     (addLog w (CallParse <$> tried))).
Proof.
  intros U P D G H req w payId Hurl Hbad.
  destruct (first_bad_token _ _ Hbad) as (pre & t & post & parsed & e & Hsplit & Hp & Ht).
  exists (pre ++ [t]). split.
  - exists post. by rewrite Hsplit, <- app_assoc.
  - by eapply path_invalid_accept.
Qed.

Lemma one_bad_token_invalidates_header_witness :
  exists tried,
    tried `prefix_of` ["application/ach+json"; "text/html"]
    /\ Deployment.run [("alice$example.com", [Deployment.achOnly])]
         (Deployment.alice ["application/ach+json"; "text/html"]) Deployment.w0
       = (Ok tt, failed Deployment.handleHttpError 400 invalidAcceptHeaderMessage None
                   (addLog Deployment.w0 (CallParse <$> tried))).
Proof.
  apply (one_bad_token_invalidates_header
           Deployment.urlToPayId Deployment.parseAcceptMediaType
           (Deployment.database [("alice$example.com", [Deployment.achOnly])])
           AcceptHeader.getPreferredPaymentInfo Deployment.handleHttpError
           (Deployment.alice ["application/ach+json"; "text/html"]) Deployment.w0
           "alice$example.com").
  - reflexivity.
  - apply Exists_cons_tl, Exists_cons_hd. eexists. reflexivity.
Defined.

(** C6: a resolution that finds nothing is answered with 404.  With exactly
    one accept type the message names that type's payment network and
    environment; with more than one it is the generic message that names only
    the PayID. *)
Theorem not_found_message_detail :
  forall urlToPayId parseAcceptMediaType getAllPaymentInfoFromDatabase
         getPreferredPaymentInfo handleHttpError req w payId parsed records,
    urlToPayId (payIdUrl req) = inr payId ->
    accepts req <> [] ->
    parsesTo parseAcceptMediaType (accepts req) parsed ->
    getAllPaymentInfoFromDatabase payId = inr records ->
    getPreferredPaymentInfo records parsed = None ->
    exists msg,
      getPaymentInfo urlToPayId parseAcceptMediaType getAllPaymentInfoFromDatabase
        getPreferredPaymentInfo handleHttpError req w
      = (Ok tt, failed handleHttpError HttpStatus.NotFound msg None
                  (addLog w ((CallParse <$> accepts req) ++ [CallFetch payId; CallMatch])))
      /\ (forall a, parsed = [a] ->
            msg = "Payment information for " +:+ payId +:+ " in "
                  +:+ AcceptMediaType.paymentNetwork a +:+ " on "
                  +:+ interpolate (AcceptMediaType.environment a)
                  +:+ " could not be found.")
      /\ (1 < length parsed ->
            msg = "Payment information for " +:+ payId +:+ " could not be found.").
Proof.
  intros U P D G H req w payId parsed records Hurl Ha Hp Hdb Hm.
  exists (notFoundMessage payId parsed). split; [by eapply path_not_found|]. split.
  - by intros a ->.
  - intros Hlen. unfold notFoundMessage.
    destruct parsed as [|a [|b ps]]; simpl in *; [lia | lia | done].
Qed.

Lemma not_found_message_detail_witness :
  exists msg,
    Deployment.run [("alice$example.com", [Deployment.achOnly])]
      (Deployment.alice ["application/btc-mainnet+json"]) Deployment.w0
    = (Ok tt, failed Deployment.handleHttpError HttpStatus.NotFound msg None
                (addLog Deployment.w0
                   ((CallParse <$> ["application/btc-mainnet+json"])
                    ++ [CallFetch "alice$example.com"; CallMatch])))
    /\ msg = "Payment information for alice$example.com in btc on mainnet could not be found.".
Proof.
  destruct (not_found_message_detail
              Deployment.urlToPayId Deployment.parseAcceptMediaType
              (Deployment.database [("alice$example.com", [Deployment.achOnly])])
              AcceptHeader.getPreferredPaymentInfo Deployment.handleHttpError
              (Deployment.alice ["application/btc-mainnet+json"]) Deployment.w0
              "alice$example.com" [Deployment.btcMainnetType] [Deployment.achOnly])
    as (msg & Hrun & Hone & _).
  - reflexivity.
  - discriminate.
  - repeat constructor.
  - reflexivity.
  - reflexivity.
  - exists msg. split; [exact Hrun|]. exact (Hone _ eq_refl).
Defined.

Lemma headerValue_content_type value :
  Express.headerValue "Content-Type" value
  = if Express.charsetRegExp value then value
    else match Express.charsetsLookup (Express.beforeSemicolon value) with
         | Some charset => value +:+ "; charset=" +:+ Express.toLowerCase charset
         | None => value
         end.
Proof. reflexivity. Qed.

(** C8 (as amended): on a successful resolution the middleware sets
    [Content-Type] from the [mediaType] string of the accept type the lookup
    returned, from nothing else, and touches no other header.  The header is
    that string verbatim when it already carries a [charset] parameter or does
    not start with [text/], [application/javascript] or [application/json]; in
    the remaining case [res.set] stores the string followed by
    [; charset=utf-8]. *)
Theorem content_type_is_set_from_media_type :
  forall urlToPayId parseAcceptMediaType getAllPaymentInfoFromDatabase
         getPreferredPaymentInfo handleHttpError req w payId parsed records a r,
    urlToPayId (payIdUrl req) = inr payId ->
    accepts req <> [] ->
    parsesTo parseAcceptMediaType (accepts req) parsed ->
    getAllPaymentInfoFromDatabase payId = inr records ->
    getPreferredPaymentInfo records parsed = Some (a, r) ->
    let w' := snd (getPaymentInfo urlToPayId parseAcceptMediaType
                     getAllPaymentInfoFromDatabase getPreferredPaymentInfo
                     handleHttpError req w) in
    let mediaType := AcceptMediaType.mediaType a in
    (exists value,
        headers (res w') = <["Content-Type" := value]> (headers (res w))
        /\ headers (res w') !! "Content-Type" = Some value)
    /\ (Express.charsetRegExp mediaType = true ->
        headers (res w') !! "Content-Type" = Some mediaType)
    /\ (Express.charsetsLookup (Express.beforeSemicolon mediaType) = None ->
        headers (res w') !! "Content-Type" = Some mediaType)
    /\ (Express.charsetRegExp mediaType = false ->
        Express.charsetsLookup (Express.beforeSemicolon mediaType) <> None ->
        headers (res w') !! "Content-Type" = Some (mediaType +:+ "; charset=utf-8")).
Proof.
  intros U P D G H req w payId parsed records a r Hurl Ha Hp Hdb Hm w' mediaType.
  subst w' mediaType.
  destruct (path_success U P D G H _ _ _ _ _ _ w Hurl Ha Hp Hdb Hm)
    as (l & h' & -> & _ & _).
  cbn [snd res headers succeeded]. rewrite lookup_insert_eq, headerValue_content_type.
  split; [by eexists|]. split; [|split].
  - by intros ->.
  - intros ->. by destruct (Express.charsetRegExp _).
  - intros -> Hcs. unfold Express.charsetsLookup in *.
    by destruct (_ || _).
Qed.

Lemma content_type_is_set_from_media_type_witness :
  headers (res (snd (Deployment.run [("alice$example.com", [Deployment.xrplTestnet])]
                       (Deployment.alice ["application/xrpl-mainnet+json";
                                          "application/xrpl-testnet+json"])
                       Deployment.w0)))
    !! "Content-Type"
  = Some "application/xrpl-testnet+json".
Proof.
  destruct (content_type_is_set_from_media_type
              Deployment.urlToPayId Deployment.parseAcceptMediaType
              (Deployment.database [("alice$example.com", [Deployment.xrplTestnet])])
              AcceptHeader.getPreferredPaymentInfo Deployment.handleHttpError
              (Deployment.alice ["application/xrpl-mainnet+json";
                                 "application/xrpl-testnet+json"])
              Deployment.w0 "alice$example.com"
              [Deployment.xrplMainnetType; Deployment.xrplTestnetType]
              [Deployment.xrplTestnet] Deployment.xrplTestnetType Deployment.xrplTestnet
              eq_refl ltac:(discriminate) ltac:(repeat constructor) eq_refl eq_refl)
    as (_ & _ & Hverbatim & _).
  exact (Hverbatim eq_refl).
Defined.

(** The claim C8 fails.  [res.set] of [Content-Type] with the value
    [application/json] stores [application/json; charset=utf-8]; and for a
    payment network named [json], whose media type
    [application/json-mainnet+json] follows the grammar, a successful
    resolution answers with that media type followed by [; charset=utf-8], not
    with the media type verbatim. *)
Lemma content_type_gets_a_charset :
  headers (res (snd (res_set "Content-Type" "application/json" Deployment.w0)))
    !! "Content-Type"
  = Some "application/json; charset=utf-8"
  /\ (let out := getPaymentInfo Deployment.urlToPayId Deployment.parseWithJsonNetwork
                   (Deployment.database [("alice$example.com", [Deployment.jsonMainnet])])
                   AcceptHeader.getPreferredPaymentInfo Deployment.handleHttpError
                   (Deployment.alice ["application/json-mainnet+json"]) Deployment.w0 in
      fst out = Ok tt
      /\ AcceptHeader.getPreferredPaymentInfo [Deployment.jsonMainnet]
           [Deployment.jsonMainnetType]
         = Some (Deployment.jsonMainnetType, Deployment.jsonMainnet)
      /\ AcceptMediaType.mediaType Deployment.jsonMainnetType
         = "application/json-mainnet+json"
      /\ headers (res (snd out)) !! "Content-Type"
         = Some "application/json-mainnet+json; charset=utf-8").
Proof. vm_compute. repeat split. Qed.

(** C10: a successful resolution stores the PayID under [payId] and one
    reference, to the one shaped payload object, under both [paymentInformation]
    and [response], and then calls [next] with the response in that state.  On
    each failure path, the URL that does not normalise, the empty list of accept
    types, the accept type that does not parse and the lookup that finds
    nothing, [next] is never called and the response is handed untouched to
    [handleHttpError]: [res.locals] is as it was, provided [handleHttpError]
    itself, which is defined elsewhere, does not write to it. *)
Theorem locals_and_next_only_on_success :
  forall urlToPayId parseAcceptMediaType getAllPaymentInfoFromDatabase
         getPreferredPaymentInfo handleHttpError req w,
    let w' := snd (getPaymentInfo urlToPayId parseAcceptMediaType
                     getAllPaymentInfoFromDatabase getPreferredPaymentInfo
                     handleHttpError req w) in
    let untouched code msg err :=
      (forall r h, CallNext r h ∉ emitted w w')
      /\ res w' = handleHttpError code msg err (res w)
      /\ ((forall c m e r, locals (handleHttpError c m e r) = locals r) ->
          locals (res w') = locals (res w)) in
    (forall payId parsed records a r,
        urlToPayId (payIdUrl req) = inr payId ->
        accepts req <> [] ->
        parsesTo parseAcceptMediaType (accepts req) parsed ->
        getAllPaymentInfoFromDatabase payId = inr records ->
        getPreferredPaymentInfo records parsed = Some (a, r) ->
        exists l,
          locals (res w')
          = <["response" := VRef l]>
              (<["paymentInformation" := VRef l]>
                 (<["payId" := VString payId]> (locals (res w))))
          /\ heap w' !! l = Some (shaped r)
          /\ emitted w w'
             = (CallParse <$> accepts req)
               ++ [CallFetch payId; CallMatch; CallNext (res w') (heap w')])
    /\ (forall err,
          urlToPayId (payIdUrl req) = inl err ->
          untouched HttpStatus.BadRequest (message err) (Some err))
    /\ (forall payId,
          urlToPayId (payIdUrl req) = inr payId ->
          accepts req = [] ->
          untouched HttpStatus.BadRequest missingAcceptHeaderMessage None)
    /\ (forall payId,
          urlToPayId (payIdUrl req) = inr payId ->
          Exists (fun t => exists e, parseAcceptMediaType t = inl e) (accepts req) ->
          untouched 400 invalidAcceptHeaderMessage None)
    /\ (forall payId parsed records,
          urlToPayId (payIdUrl req) = inr payId ->
          accepts req <> [] ->
          parsesTo parseAcceptMediaType (accepts req) parsed ->
          getAllPaymentInfoFromDatabase payId = inr records ->
          getPreferredPaymentInfo records parsed = None ->
          untouched HttpStatus.NotFound (notFoundMessage payId parsed) None).
Proof.
  intros U P D G H req w w' untouched. subst untouched w'.
  split; [|split; [|split; [|split]]].
  - intros payId parsed records a r Hurl Ha Hp Hdb Hm.
    destruct (path_success U P D G H _ _ _ _ _ _ w Hurl Ha Hp Hdb Hm)
      as (l & h' & -> & Hl & _).
    exists l. unfold emitted. simpl. by rewrite drop_app_length.
  - intros err Hurl. rewrite (path_invalid_identifier U P D G H _ _ w Hurl).
    cbn [snd]. rewrite emitted_failed_now.
    split; [intros; absent is_next|]. split; [done | intros Hl; apply Hl].
  - intros payId Hurl Ha. rewrite (path_missing_accept U P D G H _ _ w Hurl Ha).
    cbn [snd]. rewrite emitted_failed_now.
    split; [intros; absent is_next|]. split; [done | intros Hl; apply Hl].
  - intros payId Hurl Hbad.
    destruct (first_bad_token _ _ Hbad)
      as (pre & t & post & parsed & e & Hsplit & Hp & Ht).
    rewrite (path_invalid_accept U P D G H _ _ _ _ _ _ _ w Hurl Hsplit Hp Ht).
    cbn [snd]. rewrite emitted_failed.
    split; [intros; absent is_next|]. split; [done | intros Hl; apply Hl].
  - intros payId parsed records Hurl Ha Hp Hdb Hm.
    rewrite (path_not_found U P D G H _ _ _ _ w Hurl Ha Hp Hdb Hm).
    cbn [snd]. rewrite emitted_failed.
    split; [intros; absent is_next|]. split; [done | intros Hl; apply Hl].
Qed.

Lemma locals_and_next_only_on_success_witness :
  locals (res (snd (Deployment.run [("alice$example.com", [Deployment.xrplTestnet])]
                      (Deployment.alice []) Deployment.w0)))
  = locals (res Deployment.w0)
  /\ exists l,
      locals (res (snd (Deployment.run [("alice$example.com", [Deployment.xrplTestnet])]
                          (Deployment.alice ["application/xrpl-testnet+json"])
                          Deployment.w0)))
      = <["response" := VRef l]>
          (<["paymentInformation" := VRef l]>
             (<["payId" := VString "alice$example.com"]> (locals (res Deployment.w0))))
      /\ heap (snd (Deployment.run [("alice$example.com", [Deployment.xrplTestnet])]
                      (Deployment.alice ["application/xrpl-testnet+json"])
                      Deployment.w0)) !! l
         = Some (shaped Deployment.xrplTestnet).
Proof.
  pose proof (locals_and_next_only_on_success
                Deployment.urlToPayId Deployment.parseAcceptMediaType
                (Deployment.database [("alice$example.com", [Deployment.xrplTestnet])])
                AcceptHeader.getPreferredPaymentInfo Deployment.handleHttpError) as T.
  split.
  - destruct (T (Deployment.alice []) Deployment.w0) as (_ & _ & Hmissing & _).
    destruct (Hmissing "alice$example.com" eq_refl eq_refl) as (_ & _ & Hlocals).
    apply Hlocals. reflexivity.
  - destruct (T (Deployment.alice ["application/xrpl-testnet+json"]) Deployment.w0)
      as (Hsucc & _).
    destruct (Hsucc "alice$example.com" [Deployment.xrplTestnetType]
                [Deployment.xrplTestnet] Deployment.xrplTestnetType Deployment.xrplTestnet
                eq_refl ltac:(discriminate) ltac:(repeat constructor) eq_refl eq_refl)
      as (l & Hloc & Hheap & _).
    exists l. split; [exact Hloc | exact Hheap].
Defined.

(** ** Absence of records and absence of a match *)

(** C1 (as amended): the middleware does not tell the two absences apart.
    When the lookup finds nothing for a PayID without any record and finds
    nothing for the same PayID with records, the two runs are equal: the same 404
    with the same message, the same trace, the same response. *)
Theorem absences_are_merged :
  forall urlToPayId parseAcceptMediaType db1 db2 getPreferredPaymentInfo handleHttpError
         req w payId parsed records,
    urlToPayId (payIdUrl req) = inr payId ->
    accepts req <> [] ->
    parsesTo parseAcceptMediaType (accepts req) parsed ->
    db1 payId = inr [] ->
    db2 payId = inr records ->
    records <> [] ->
    getPreferredPaymentInfo [] parsed = None ->
    getPreferredPaymentInfo records parsed = None ->
    getPaymentInfo urlToPayId parseAcceptMediaType db1 getPreferredPaymentInfo
      handleHttpError req w
    = getPaymentInfo urlToPayId parseAcceptMediaType db2 getPreferredPaymentInfo
        handleHttpError req w
    /\ getPaymentInfo urlToPayId parseAcceptMediaType db2 getPreferredPaymentInfo
         handleHttpError req w
       = (Ok tt, failed handleHttpError HttpStatus.NotFound
                   (notFoundMessage payId parsed) None
                   (addLog w ((CallParse <$> accepts req)
                              ++ [CallFetch payId; CallMatch]))).
Proof.
  intros U P D1 D2 G H req w payId parsed records Hurl Ha Hp Hd1 Hd2 _ Hm1 Hm2.
  rewrite (path_not_found U P D1 G H _ _ _ _ w Hurl Ha Hp Hd1 Hm1).
  by rewrite (path_not_found U P D2 G H _ _ _ _ w Hurl Ha Hp Hd2 Hm2).
Qed.

Lemma absences_are_merged_witness :
  Deployment.run [] (Deployment.alice ["application/btc-mainnet+json"]) Deployment.w0
  = (Ok tt, failed Deployment.handleHttpError HttpStatus.NotFound
              "Payment information for alice$example.com in btc on mainnet could not be found."
              None
              (addLog Deployment.w0
                 [CallParse "application/btc-mainnet+json";
                  CallFetch "alice$example.com"; CallMatch])).
Proof.
  destruct (absences_are_merged
              Deployment.urlToPayId Deployment.parseAcceptMediaType
              (Deployment.database [])
              (Deployment.database [("alice$example.com", [Deployment.achOnly])])
              AcceptHeader.getPreferredPaymentInfo Deployment.handleHttpError
              (Deployment.alice ["application/btc-mainnet+json"]) Deployment.w0
              "alice$example.com" [Deployment.btcMainnetType] [Deployment.achOnly]
              eq_refl ltac:(discriminate) ltac:(repeat constructor) eq_refl eq_refl
              ltac:(discriminate)
              (getPreferredPaymentInfo_no_records [Deployment.btcMainnetType])
              (getPreferredPaymentInfo_no_match
                 [Deployment.achOnly] [Deployment.btcMainnetType]
                 ltac:(repeat constructor)))
    as [Hsame Hrun].
  unfold Deployment.run. rewrite Hsame. exact Hrun.
Defined.

(** The claim C1 fails: for a PayID without any record and for the same
    PayID with only an ACH record, a request for [btc-mainnet] gets the very same
    answer, status 404 with one and the same message. *)
Lemma absences_not_distinguished :
  Deployment.run [] (Deployment.alice ["application/btc-mainnet+json"]) Deployment.w0
  = Deployment.run [("alice$example.com", [Deployment.achOnly])]
      (Deployment.alice ["application/btc-mainnet+json"]) Deployment.w0
  /\ statusCode (res (snd (Deployment.run [("alice$example.com", [Deployment.achOnly])]
                            (Deployment.alice ["application/btc-mainnet+json"])
                            Deployment.w0)))
     = Some 404
  /\ body (res (snd (Deployment.run [] (Deployment.alice ["application/btc-mainnet+json"])
                      Deployment.w0)))
     = Some "Payment information for alice$example.com in btc on mainnet could not be found.".
Proof. vm_compute. repeat split. Qed.

(** ** The shape of the payload *)

(** C2 (as amended): on a successful resolution the shape of the payload is
    selected by the record's payment network, not by its kind of details: the
    payload stored for the next middleware is tagged as an ACH address exactly
    when the payment network is the string [ACH] and as a crypto address in
    every other case, it carries the record's details unchanged, and the
    middleware finishes normally whatever the kind is. *)
Theorem shape_follows_payment_network :
  forall urlToPayId parseAcceptMediaType getAllPaymentInfoFromDatabase
         getPreferredPaymentInfo handleHttpError req w payId parsed records a r,
    urlToPayId (payIdUrl req) = inr payId ->
    accepts req <> [] ->
    parsesTo parseAcceptMediaType (accepts req) parsed ->
    getAllPaymentInfoFromDatabase payId = inr records ->
    getPreferredPaymentInfo records parsed = Some (a, r) ->
    let out := getPaymentInfo urlToPayId parseAcceptMediaType
                 getAllPaymentInfoFromDatabase getPreferredPaymentInfo
                 handleHttpError req w in
    fst out = Ok tt
    /\ exists l,
        locals (res (snd out)) !! "response" = Some (VRef l)
        /\ heap (snd out) !! l
           = Some (mkPaymentInformation
                     (if String.eqb (AddressInformation.payment_network r) "ACH"
                      then AchAddress else CryptoAddress)
                     (AddressInformation.details r))
        /\ Forall (fun e => is_http_error e = false) (emitted w (snd out)).
Proof.
  intros U P D G H req w payId parsed records a r Hurl Ha Hp Hdb Hm.
  destruct (path_success U P D G H _ _ _ _ _ _ w Hurl Ha Hp Hdb Hm)
    as (l & h' & -> & Hl & _).
  simpl. split; [done|]. exists l. split; [apply lookup_insert_eq|]. split; [done|].
  unfold emitted. simpl. rewrite drop_app_length, Forall_app.
  split; [by apply parse_calls_only | repeat constructor].
Qed.

Lemma shape_follows_payment_network_witness :
  exists l,
    locals (res (snd (Deployment.run [("alice$example.com", [Deployment.xrplTestnet])]
                        (Deployment.alice ["application/xrpl-testnet+json"])
                        Deployment.w0))) !! "response"
    = Some (VRef l)
    /\ heap (snd (Deployment.run [("alice$example.com", [Deployment.xrplTestnet])]
                    (Deployment.alice ["application/xrpl-testnet+json"])
                    Deployment.w0)) !! l
       = Some (mkPaymentInformation CryptoAddress
                 (AddressInformation.details Deployment.xrplTestnet)).
Proof.
  destruct (shape_follows_payment_network
              Deployment.urlToPayId Deployment.parseAcceptMediaType
              (Deployment.database [("alice$example.com", [Deployment.xrplTestnet])])
              AcceptHeader.getPreferredPaymentInfo Deployment.handleHttpError
              (Deployment.alice ["application/xrpl-testnet+json"]) Deployment.w0
              "alice$example.com" [Deployment.xrplTestnetType] [Deployment.xrplTestnet]
              Deployment.xrplTestnetType Deployment.xrplTestnet
              eq_refl ltac:(discriminate) ltac:(repeat constructor) eq_refl eq_refl)
    as (_ & l & Hloc & Hheap & _).
  exists l. split; [exact Hloc | exact Hheap].
Defined.

(** The claim C2 fails.  A record of kind [ach-address] stored under the
    network [xrpl] is rendered in the crypto-address shape; so is the record of
    kind [ach-address] stored under the lower-case network [ach]; and a record of
    an unrecognised kind is rendered in the crypto-address shape and handed to the
    next middleware, without any error. *)
Lemma shape_ignores_details_kind :
  (AddressInformation.detailsKind Deployment.bankOnLedger = ach_address
   /\ let w' := snd (Deployment.run [("alice$example.com", [Deployment.bankOnLedger])]
                       (Deployment.alice ["application/xrpl-mainnet+json"])
                       Deployment.w0) in
      locals (res w') !! "response" = Some (VRef 0)
      /\ heap w' !! 0 = Some (mkPaymentInformation CryptoAddress "000123456789/123456789"))
  /\ (AddressInformation.detailsKind Deployment.achOnly = ach_address
      /\ let w' := snd (Deployment.run [("alice$example.com", [Deployment.achOnly])]
                          (Deployment.alice ["application/ach+json"]) Deployment.w0) in
         locals (res w') !! "response" = Some (VRef 0)
         /\ heap w' !! 0
            = Some (mkPaymentInformation CryptoAddress "000123456789/123456789"))
  /\ (AddressInformation.detailsKind Deployment.otherKind <> crypto_address
      /\ AddressInformation.detailsKind Deployment.otherKind <> ach_address
      /\ let out := Deployment.run [("alice$example.com", [Deployment.otherKind])]
                      (Deployment.alice ["application/xrpl-mainnet+json"])
                      Deployment.w0 in
         fst out = Ok tt
         /\ heap (snd out) !! 0
            = Some (mkPaymentInformation CryptoAddress "DE89370400440532013000")
         /\ last (log (snd out)) = Some (CallNext (res (snd out)) (heap (snd out)))
         /\ statusCode (res (snd out)) = None).
Proof.
  repeat split; try discriminate; vm_compute; reflexivity.
Qed.

(** ** Further properties of the middleware *)

Lemma emitted_world w r h es : emitted w (mkWorld r h (log w ++ es)) = es.
Proof. unfold emitted; simpl. by rewrite drop_app_length. Qed.

Lemma parseCalls_parse tokens : parseCalls (CallParse <$> tokens) = tokens.
Proof. induction tokens as [|t ts IH]; [done|]. simpl. f_equal. apply IH. Qed.

Lemma parseCalls_app es es' : parseCalls (es ++ es') = parseCalls es ++ parseCalls es'.
Proof. apply omap_app. Qed.

Lemma fetchCalls_parse tokens : fetchCalls (CallParse <$> tokens) = [].
Proof. by induction tokens. Qed.

Lemma fetchCalls_app es es' : fetchCalls (es ++ es') = fetchCalls es ++ fetchCalls es'.
Proof. apply omap_app. Qed.

Lemma parse_calls_are_calls tokens :
  Forall (fun x => is_call x = true) (CallParse <$> tokens).
Proof. by apply Forall_fmap, Forall_true. Qed.

(** The cases of [getPaymentInfo_path], with the run named [out] and [w']. *)
Ltac by_path U P D G H req w :=
  let HP := fresh "HP" in
  pose proof (getPaymentInfo_path U P D G H req w) as HP;
  destruct (getPaymentInfo U P D G H req w) as [out w'];
  simpl in *; inversion HP; subst; clear HP;
  rewrite ?emitted_failed_now, ?emitted_failed, ?emitted_addLog, ?emitted_world in *.

(** X1: every run either returns after exactly one terminal call, to
    [handleHttpError] or to [next], which is its last call and is preceded only by
    calls to the parser, the record store and the matcher; or it throws, and then
    it made no terminal call at all. *)
Theorem answers_exactly_once :
  forall urlToPayId parseAcceptMediaType getAllPaymentInfoFromDatabase
         getPreferredPaymentInfo handleHttpError req w,
    let out := getPaymentInfo urlToPayId parseAcceptMediaType
                 getAllPaymentInfoFromDatabase getPreferredPaymentInfo
                 handleHttpError req w in
    (fst out = Ok tt
     /\ exists es e,
         emitted w (snd out) = es ++ [e]
         /\ Forall (fun x => is_call x = true) es
         /\ is_terminal e = true)
    \/ (exists err,
          fst out = Throw err
          /\ Forall (fun x => is_call x = true) (emitted w (snd out))).
Proof.
  intros U P D G H req w out. subst out. by_path U P D G H req w.
  - left. split; [done|]. by exists [], (CallHandleHttpError HttpStatus.BadRequest (message err)).
  - left. split; [done|].
    by exists [], (CallHandleHttpError HttpStatus.BadRequest missingAcceptHeaderMessage).
  - left. split; [done|]. eexists _, _. split; [reflexivity|].
    split; [apply parse_calls_are_calls | done].
  - right. exists e. split; [done|]. rewrite Forall_app.
    split; [apply parse_calls_are_calls | repeat constructor].
  - left. split; [done|]. eexists _, _. split; [reflexivity|]. rewrite Forall_app.
    split; [|done]. split; [apply parse_calls_are_calls | repeat constructor].
  - left. split; [done|].
    exists ((CallParse <$> accepts req) ++ [CallFetch payId; CallMatch]),
           (CallNext (succeeded payId a l (res w)) h').
    split; [by rewrite <- app_assoc|]. rewrite Forall_app.
    split; [|done]. split; [apply parse_calls_are_calls | repeat constructor].
Qed.

(** X2: the middleware throws only when the fetch from the record store is
    rejected, and it rethrows that very error: the URL had normalised to the
    PayID that was fetched, every accept type had parsed, and the response and
    the heap are left exactly as they were (nothing is answered). *)
Theorem throws_only_on_rejected_fetch :
  forall urlToPayId parseAcceptMediaType getAllPaymentInfoFromDatabase
         getPreferredPaymentInfo handleHttpError req w err,
    fst (getPaymentInfo urlToPayId parseAcceptMediaType getAllPaymentInfoFromDatabase
           getPreferredPaymentInfo handleHttpError req w) = Throw err ->
    let w' := snd (getPaymentInfo urlToPayId parseAcceptMediaType
                     getAllPaymentInfoFromDatabase getPreferredPaymentInfo
                     handleHttpError req w) in
    exists payId parsed,
      urlToPayId (payIdUrl req) = inr payId
      /\ parsesTo parseAcceptMediaType (accepts req) parsed
      /\ getAllPaymentInfoFromDatabase payId = inl err
      /\ res w' = res w /\ heap w' = heap w
      /\ emitted w w' = (CallParse <$> accepts req) ++ [CallFetch payId].
Proof.
  intros U P D G H req w err Hthrow w'. subst w'. revert Hthrow.
  by_path U P D G H req w; intros Hthrow; try discriminate.
  injection Hthrow as ->. by exists payId, parsed.
Qed.

Lemma throws_only_on_rejected_fetch_witness :
  exists payId parsed,
    Deployment.urlToPayId (payIdUrl (Deployment.alice ["application/ach+json"])) = inr payId
    /\ parsesTo Deployment.parseAcceptMediaType ["application/ach+json"] parsed
    /\ res (snd (getPaymentInfo Deployment.urlToPayId Deployment.parseAcceptMediaType
                   (fun _ => inl (mkError "connection refused"))
                   AcceptHeader.getPreferredPaymentInfo Deployment.handleHttpError
                   (Deployment.alice ["application/ach+json"]) Deployment.w0))
       = res Deployment.w0.
Proof.
  destruct (throws_only_on_rejected_fetch
              Deployment.urlToPayId Deployment.parseAcceptMediaType
              (fun _ => inl (mkError "connection refused"))
              AcceptHeader.getPreferredPaymentInfo Deployment.handleHttpError
              (Deployment.alice ["application/ach+json"]) Deployment.w0
              (mkError "connection refused") eq_refl)
    as (payId & parsed & Hurl & Hp & _ & Hres & _).
  by exists payId, parsed.
Defined.

(** X3: what an error answer tells about its cause.  Whenever the middleware
    calls [handleHttpError], the status is 400 or 404 and status and message
    identify the failed step: 400 with the thrown error's own message when the
    URL does not normalise; 400 with the missing-header message when the URL
    normalises and there is no accept type; 400 with the invalid-header message
    when some accept type does not parse; 404 with the not-found message when
    everything parsed, the fetch succeeded and the matcher found nothing. *)
Theorem error_answer_identifies_cause :
  forall urlToPayId parseAcceptMediaType getAllPaymentInfoFromDatabase
         getPreferredPaymentInfo handleHttpError req w code msg,
    CallHandleHttpError code msg
      ∈ emitted w (snd (getPaymentInfo urlToPayId parseAcceptMediaType
                          getAllPaymentInfoFromDatabase getPreferredPaymentInfo
                          handleHttpError req w)) ->
    (code = 400 /\ exists err, urlToPayId (payIdUrl req) = inl err /\ msg = message err)
    \/ (code = 400 /\ msg = missingAcceptHeaderMessage
        /\ (exists payId, urlToPayId (payIdUrl req) = inr payId)
        /\ accepts req = [])
    \/ (code = 400 /\ msg = invalidAcceptHeaderMessage
        /\ (exists payId, urlToPayId (payIdUrl req) = inr payId)
        /\ Exists (fun t => exists e, parseAcceptMediaType t = inl e) (accepts req))
    \/ (code = 404
        /\ exists payId parsed records,
            urlToPayId (payIdUrl req) = inr payId
            /\ parsesTo parseAcceptMediaType (accepts req) parsed
            /\ getAllPaymentInfoFromDatabase payId = inr records
            /\ getPreferredPaymentInfo records parsed = None
            /\ msg = notFoundMessage payId parsed).
Proof.
  intros U P D G H req w code msg Hin. revert Hin.
  by_path U P D G H req w; intros Hin.
  - apply (the_error_of_a_failure []) in Hin as [-> ->]; [|constructor].
    left. split; [done|]. by exists err.
  - apply (the_error_of_a_failure []) in Hin as [-> ->]; [|constructor].
    right; left. repeat split; [by exists payId | done].
  - apply the_error_of_a_failure in Hin as [-> ->]; [|by apply parse_calls_only].
    right; right; left. repeat split; [by exists payId|].
    match goal with Hs : accepts req = _ |- _ => rewrite Hs end.
    apply Exists_app. right. apply Exists_cons_hd. by exists e.
  - exfalso. revert Hin. absent is_http_error.
  - apply the_error_of_a_failure in Hin as [-> ->];
      [|rewrite Forall_app; split; [by apply parse_calls_only | repeat constructor]].
    right; right; right. split; [done|]. by exists payId, parsed, records.
  - exfalso. revert Hin. absent is_http_error.
Qed.

Lemma error_answer_identifies_cause_witness :
  exists payId parsed,
    Deployment.urlToPayId (payIdUrl (Deployment.alice ["application/btc-mainnet+json"]))
    = inr payId
    /\ parsesTo Deployment.parseAcceptMediaType ["application/btc-mainnet+json"] parsed
    /\ "Payment information for alice$example.com in btc on mainnet could not be found."
       = notFoundMessage payId parsed.
Proof.
  assert (Hin : CallHandleHttpError 404
                  "Payment information for alice$example.com in btc on mainnet could not be found."
                ∈ emitted Deployment.w0
                    (snd (Deployment.run [("alice$example.com", [Deployment.achOnly])]
                            (Deployment.alice ["application/btc-mainnet+json"])
                            Deployment.w0))).
  { vm_compute. do 3 right. left. }
  destruct (error_answer_identifies_cause _ _ _ _ _ _ _ _ _ Hin)
    as [[Hc _]|[[Hc _]|[[Hc _]|[_ (payId & parsed & records & Hurl & Hp & _ & _ & Hmsg)]]]];
    try discriminate Hc.
  by exists payId, parsed.
Defined.

(** X4: the accept types are parsed in the order of [req.accepts()], without
    gaps, and no further than the first one that does not parse.  In every run
    the tokens handed to the parser form a prefix of that list; it is empty when
    the URL does not normalise, the whole list when every type parses, and the
    list up to and including the first type that does not parse otherwise. *)
Theorem parsed_tokens_are_a_prefix :
  forall urlToPayId parseAcceptMediaType getAllPaymentInfoFromDatabase
         getPreferredPaymentInfo handleHttpError req w,
    let tokens :=
      parseCalls (emitted w (snd (getPaymentInfo urlToPayId parseAcceptMediaType
                                    getAllPaymentInfoFromDatabase
                                    getPreferredPaymentInfo handleHttpError req w))) in
    tokens `prefix_of` accepts req
    /\ (forall err, urlToPayId (payIdUrl req) = inl err -> tokens = [])
    /\ (forall payId parsed,
          urlToPayId (payIdUrl req) = inr payId ->
          parsesTo parseAcceptMediaType (accepts req) parsed ->
          tokens = accepts req)
    /\ (forall payId pre t post parsed e,
          urlToPayId (payIdUrl req) = inr payId ->
          accepts req = pre ++ t :: post ->
          parsesTo parseAcceptMediaType pre parsed ->
          parseAcceptMediaType t = inl e ->
          tokens = pre ++ [t]).
Proof.
  intros U P D G H req w tokens. subst tokens. split; [|split; [|split]].
  - by_path U P D G H req w;
      rewrite ?parseCalls_app, ?parseCalls_parse; simpl; rewrite ?app_nil_r;
      try apply prefix_nil; try done.
    match goal with Hs : accepts req = _ |- _ => rewrite Hs end.
    exists post. by rewrite <- app_assoc.
  - intros err Hurl. rewrite (path_invalid_identifier U P D G H _ _ w Hurl).
    cbn [snd]. by rewrite emitted_failed_now.
  - intros payId parsed Hurl Hp.
    destruct (decide (accepts req = [])) as [Ha|Ha].
    { rewrite (path_missing_accept U P D G H _ _ w Hurl Ha). cbn [snd].
      by rewrite emitted_failed_now, Ha. }
    destruct (D payId) as [e|records] eqn:Hdb.
    { rewrite (path_fetch_rejected U P D G H _ _ _ _ w Hurl Ha Hp Hdb). cbn [snd].
      rewrite emitted_addLog, parseCalls_app, parseCalls_parse. apply app_nil_r. }
    destruct (G records parsed) as [[a r]|] eqn:Hm.
    + destruct (path_success U P D G H _ _ _ _ _ _ w Hurl Ha Hp Hdb Hm)
        as (l & h' & -> & _ & _).
      cbn [snd]. rewrite emitted_world, parseCalls_app, parseCalls_parse.
      apply app_nil_r.
    + rewrite (path_not_found U P D G H _ _ _ _ w Hurl Ha Hp Hdb Hm). cbn [snd].
      rewrite emitted_failed, !parseCalls_app, parseCalls_parse. simpl.
      by rewrite !app_nil_r.
  - intros payId pre t post parsed e Hurl Hsplit Hp Ht.
    rewrite (path_invalid_accept U P D G H _ _ _ _ _ _ _ w Hurl Hsplit Hp Ht).
    cbn [snd]. rewrite emitted_failed, parseCalls_app, parseCalls_parse.
    apply app_nil_r.
Qed.

(** X5: the record store is asked at most once per request, and only for the
    PayID the URL normalised to, after every accept type has parsed. *)
Theorem fetch_only_for_the_normalised_payid :
  forall urlToPayId parseAcceptMediaType getAllPaymentInfoFromDatabase
         getPreferredPaymentInfo handleHttpError req w,
    let fetched :=
      fetchCalls (emitted w (snd (getPaymentInfo urlToPayId parseAcceptMediaType
                                    getAllPaymentInfoFromDatabase
                                    getPreferredPaymentInfo handleHttpError req w))) in
    fetched = []
    \/ exists payId parsed,
        urlToPayId (payIdUrl req) = inr payId
        /\ parsesTo parseAcceptMediaType (accepts req) parsed
        /\ fetched = [payId].
Proof.
  intros U P D G H req w fetched. subst fetched.
  by_path U P D G H req w; rewrite ?fetchCalls_app, ?fetchCalls_parse; simpl;
    try (by left); right; by exists payId, parsed.
Qed.

(** X6: the middleware never changes or removes an object that is already on
    the heap; and unless it calls [next], it allocates nothing: the heap is
    exactly as it was. *)
Theorem heap_only_grows :
  forall urlToPayId parseAcceptMediaType getAllPaymentInfoFromDatabase
         getPreferredPaymentInfo handleHttpError req w,
    let w' := snd (getPaymentInfo urlToPayId parseAcceptMediaType
                     getAllPaymentInfoFromDatabase getPreferredPaymentInfo
                     handleHttpError req w) in
    heap w ⊆ heap w'
    /\ ((forall r h, CallNext r h ∉ emitted w w') -> heap w' = heap w).
Proof.
  intros U P D G H req w w'. subst w'.
  by_path U P D G H req w; try (split; [done | by intros _]).
  split; [done|]. intros Hno. exfalso.
  apply (Hno (succeeded payId a l (res w)) h').
  rewrite !elem_of_app. right. do 2 right. left.
Qed.

(** X8: [next] is called only after a successful resolution.  If the trace
    of a run holds a call to [next], the URL normalised, every accept type
    parsed, the fetch succeeded and the matcher returned a pair; the response
    handed on is the final one, and its [Content-Type] is what [res.set] makes
    of the pair's media type. *)
Theorem next_only_after_a_match :
  forall urlToPayId parseAcceptMediaType getAllPaymentInfoFromDatabase
         getPreferredPaymentInfo handleHttpError req w r h,
    let w' := snd (getPaymentInfo urlToPayId parseAcceptMediaType
                     getAllPaymentInfoFromDatabase getPreferredPaymentInfo
                     handleHttpError req w) in
    CallNext r h ∈ emitted w w' ->
    exists payId parsed records a record,
      urlToPayId (payIdUrl req) = inr payId
      /\ parsesTo parseAcceptMediaType (accepts req) parsed
      /\ getAllPaymentInfoFromDatabase payId = inr records
      /\ getPreferredPaymentInfo records parsed = Some (a, record)
      /\ r = res w' /\ h = heap w'
      /\ headers r !! "Content-Type"
         = Some (Express.headerValue "Content-Type" (AcceptMediaType.mediaType a)).
Proof.
  intros U P D G H req w r h w'. subst w'.
  by_path U P D G H req w; intros Hin;
    try (exfalso; revert Hin; by absent is_next).
  exists payId, parsed, records, a, r0.
  apply elem_of_app in Hin as [Hin|Hin].
  { exfalso. revert Hin. by absent is_next. }
  repeat (apply elem_of_cons in Hin as [Hin|Hin]; [discriminate Hin || idtac|]).
  - injection Hin as -> ->. repeat split; try done. apply lookup_insert_eq.
  - by apply elem_of_nil in Hin.
Qed.

Lemma next_only_after_a_match_witness :
  exists payId parsed records a record,
    Deployment.urlToPayId (payIdUrl (Deployment.alice ["application/xrpl-testnet+json"]))
    = inr payId
    /\ parsesTo Deployment.parseAcceptMediaType ["application/xrpl-testnet+json"] parsed
    /\ Deployment.database [("alice$example.com", [Deployment.xrplTestnet])] payId
       = inr records
    /\ AcceptHeader.getPreferredPaymentInfo records parsed = Some (a, record).
Proof.
  destruct (next_only_after_a_match
              Deployment.urlToPayId Deployment.parseAcceptMediaType
              (Deployment.database [("alice$example.com", [Deployment.xrplTestnet])])
              AcceptHeader.getPreferredPaymentInfo Deployment.handleHttpError
              (Deployment.alice ["application/xrpl-testnet+json"]) Deployment.w0
              (res (snd (Deployment.run [("alice$example.com", [Deployment.xrplTestnet])]
                           (Deployment.alice ["application/xrpl-testnet+json"])
                           Deployment.w0)))
              (heap (snd (Deployment.run [("alice$example.com", [Deployment.xrplTestnet])]
                            (Deployment.alice ["application/xrpl-testnet+json"])
                            Deployment.w0))))
    as (payId & parsed & records & a & record & Hurl & Hp & Hdb & Hm & _).
  - vm_compute. do 3 right. left.
  - by exists payId, parsed, records, a, record.
Defined.

(** The payload is allocated at a location that was free. *)
Lemma shapeResponse_fresh r w :
  exists l h',
    shapeResponse r w = (Ok l, mkWorld (res w) h' (log w))
    /\ heap w !! l = None /\ heap w ⊆ h'.
Proof.
  unfold shapeResponse, bind, alloc, ret. simpl.
  set (l1 := fresh (dom (heap w))).
  assert (H1 : heap w !! l1 = None) by (apply not_elem_of_dom, is_fresh).
  destruct (String.eqb _ _).
  - set (h1 := <[l1 := _]> (heap w)).
    set (l2 := fresh (dom h1)).
    assert (H2 : h1 !! l2 = None) by (apply not_elem_of_dom, is_fresh).
    eexists l2, _. split; [reflexivity|]. split.
    + eapply lookup_weaken_None; [exact H2 | by apply insert_subseteq].
    + transitivity h1; by apply insert_subseteq.
  - eexists l1, _. split; [reflexivity|]. split; [done | by apply insert_subseteq].
Qed.

Lemma path_success_fresh
    (U : string -> Error + string) (P : string -> Error + AcceptMediaType.t)
    (D : string -> Error + list AddressInformation.t)
    (G : list AddressInformation.t -> list AcceptMediaType.t ->
         option (AcceptMediaType.t * AddressInformation.t))
    (H : nat -> string -> option Error -> Response -> Response)
    req payId parsed records a r w :
  U (payIdUrl req) = inr payId ->
  accepts req <> [] ->
  parsesTo P (accepts req) parsed ->
  D payId = inr records ->
  G records parsed = Some (a, r) ->
  exists l h',
    snd (getPaymentInfo U P D G H req w)
    = mkWorld (succeeded payId a l (res w)) h'
        (log w ++ (CallParse <$> accepts req)
         ++ [CallFetch payId; CallMatch; CallNext (succeeded payId a l (res w)) h'])
    /\ heap w !! l = None.
Proof.
  intros Hurl Ha Hp Hdb Hm.
  unfold getPaymentInfo. rewrite Hurl. cbv zeta. rewrite (nonempty_length _ Ha).
  unfold bind at 1, try_. rewrite (mapM_callParse_ok _ _ _ _ Hp).
  unfold bind at 1.
  rewrite (lookup_fetched D G _ parsed records); [|by eapply parsed_nonempty|done].
  rewrite Hm, addLog_addLog. unfold bind at 1, res_set. unfold bind at 1.
  match goal with |- context [shapeResponse r ?w1] =>
    destruct (shapeResponse_fresh r w1) as (l & h' & -> & Hl & _) end.
  exists l, h'. split; [|done].
  unfold bind, set_local, next, emit, succeeded, addLog. simpl.
  by rewrite <- !app_assoc.
Qed.

(** X7: what a successful resolution leaves alone.  The reference stored in
    [res.locals] points to a location that held no object before the run, so the
    payload aliases nothing that existed; every entry of [res.locals] other than
    [payId], [paymentInformation] and [response], every header other than
    [Content-Type], the status and the body are as they were. *)
Theorem success_writes_nothing_else :
  forall urlToPayId parseAcceptMediaType getAllPaymentInfoFromDatabase
         getPreferredPaymentInfo handleHttpError req w payId parsed records a r,
    urlToPayId (payIdUrl req) = inr payId ->
    accepts req <> [] ->
    parsesTo parseAcceptMediaType (accepts req) parsed ->
    getAllPaymentInfoFromDatabase payId = inr records ->
    getPreferredPaymentInfo records parsed = Some (a, r) ->
    let w' := snd (getPaymentInfo urlToPayId parseAcceptMediaType
                     getAllPaymentInfoFromDatabase getPreferredPaymentInfo
                     handleHttpError req w) in
    (exists l, locals (res w') !! "response" = Some (VRef l) /\ heap w !! l = None)
    /\ (forall k, k <> "payId" -> k <> "paymentInformation" -> k <> "response" ->
                  locals (res w') !! k = locals (res w) !! k)
    /\ (forall k, k <> "Content-Type" -> headers (res w') !! k = headers (res w) !! k)
    /\ statusCode (res w') = statusCode (res w)
    /\ body (res w') = body (res w).
Proof.
  intros U P D G H req w payId parsed records a r Hurl Ha Hp Hdb Hm w'. subst w'.
  destruct (path_success_fresh U P D G H _ _ _ _ _ _ w Hurl Ha Hp Hdb Hm)
    as (l & h' & -> & Hl).
  cbn [res locals headers statusCode body succeeded]. split; [|split; [|split]].
  - exists l. split; [apply lookup_insert_eq | done].
  - intros k H1 H2 H3. by rewrite !lookup_insert_ne by congruence.
  - intros k H1. by rewrite lookup_insert_ne by congruence.
  - done.
Qed.

Lemma success_writes_nothing_else_witness :
  statusCode (res (snd (Deployment.run [("alice$example.com", [Deployment.xrplTestnet])]
                          (Deployment.alice ["application/xrpl-testnet+json"])
                          Deployment.w0)))
  = statusCode (res Deployment.w0)
  /\ headers (res (snd (Deployment.run [("alice$example.com", [Deployment.xrplTestnet])]
                          (Deployment.alice ["application/xrpl-testnet+json"])
                          Deployment.w0))) !! "Vary"
     = headers (res Deployment.w0) !! "Vary".
Proof.
  destruct (success_writes_nothing_else
              Deployment.urlToPayId Deployment.parseAcceptMediaType
              (Deployment.database [("alice$example.com", [Deployment.xrplTestnet])])
              AcceptHeader.getPreferredPaymentInfo Deployment.handleHttpError
              (Deployment.alice ["application/xrpl-testnet+json"]) Deployment.w0
              "alice$example.com" [Deployment.xrplTestnetType] [Deployment.xrplTestnet]
              Deployment.xrplTestnetType Deployment.xrplTestnet
              eq_refl ltac:(discriminate) ltac:(repeat constructor) eq_refl eq_refl)
    as (_ & _ & Hheaders & Hstatus & _).
  split; [exact Hstatus|]. apply Hheaders. discriminate.
Defined.

(** X9: the lookup only reads.  [getPaymentInfoForAcceptTypes] leaves the
    response and the heap as they are and calls nothing but the record store
    and the matcher: nothing at all for an empty list, where it returns
    [undefined]; the store alone when the fetch is rejected, whose error it
    throws; the store and then the matcher otherwise, and then it returns
    exactly the matcher's answer for the fetched records and the list it was
    given. *)
Theorem lookup_only_reads :
  forall (db : string -> Error + list AddressInformation.t)
         (matcher : list AddressInformation.t -> list AcceptMediaType.t ->
                    option (AcceptMediaType.t * AddressInformation.t))
         payId sorted w,
    let out := getPaymentInfoForAcceptTypes db matcher payId sorted w in
    res (snd out) = res w
    /\ heap (snd out) = heap w
    /\ (sorted = [] -> fst out = Ok None /\ emitted w (snd out) = [])
    /\ (forall e,
          sorted <> [] -> db payId = inl e ->
          fst out = Throw e /\ emitted w (snd out) = [CallFetch payId])
    /\ (forall records,
          sorted <> [] -> db payId = inr records ->
          fst out = Ok (matcher records sorted)
          /\ emitted w (snd out) = [CallFetch payId; CallMatch]).
Proof.
  intros db matcher payId sorted w out. subst out.
  destruct sorted as [|a sorted].
  { rewrite lookup_no_prefs. cbn [fst snd]. unfold emitted. rewrite drop_all.
    split; [done|]. split; [done|]. split; [done|]. split; by intros. }
  destruct (db payId) as [e|records] eqn:Hdb.
  - rewrite (lookup_rejected db matcher payId (a :: sorted) e) by done.
    cbn [fst snd]. rewrite emitted_addLog.
    split; [done|]. split; [done|]. split; [done|]. split.
    + by intros e' _ [= <-].
    + by intros records _ [=].
  - rewrite (lookup_fetched db matcher payId (a :: sorted) records) by done.
    cbn [fst snd]. rewrite emitted_addLog.
    split; [done|]. split; [done|]. split; [done|]. split.
    + by intros e _ [=].
    + by intros records' _ [= <-].
Qed.

(** ** The application's life cycle *)

Lemma since_calls n cs k : App.since n (App.mkNode k (App.calls n ++ cs)) = cs.
Proof. unfold App.since; simpl. by rewrite drop_app_length. Qed.

(** The calls [close] makes, for any state of the object. *)
Lemma close_calls this n :
  App.since n (App.close this n)
  = (App.ServerClose <$> option_list (App.publicAPIServer this))
    ++ (App.ServerClose <$> option_list (App.privateAPIServer this))
    ++ ((fun t => App.ClearInterval (App.timer t))
          <$> filter (fun t => App.hasRef t = true)
                (option_list (App.recurringMetricsTimeout this)))
    ++ ((fun t => App.ClearInterval (App.timer t))
          <$> filter (fun t => App.hasRef t = true)
                (option_list (App.recurringMetricsPushTimeout this))).
Proof.
  destruct this as [pub priv [s1|] [s2|] [[i [|]]|] [[j [|]]|]];
    unfold App.close, App.closeServer, App.clearTimer, App.call, App.since; simpl;
    rewrite <- ?app_assoc, ?drop_app_length, ?drop_all; reflexivity.
Qed.

Lemma closed_close this n :
  App.closed (App.since n (App.close this n))
  = option_list (App.publicAPIServer this) ++ option_list (App.privateAPIServer this).
Proof.
  rewrite close_calls.
  destruct this as [pub priv [s1|] [s2|] [[i [|]]|] [[j [|]]|]]; reflexivity.
Qed.

Lemma cleared_close this n :
  App.cleared (App.since n (App.close this n))
  = App.timer <$> filter (fun t => App.hasRef t = true)
                    (option_list (App.recurringMetricsTimeout this)
                     ++ option_list (App.recurringMetricsPushTimeout this)).
Proof.
  rewrite close_calls.
  destruct this as [pub priv [s1|] [s2|] [[i [|]]|] [[j [|]]|]]; reflexivity.
Qed.

Section InitRuns.
Variable DatabaseConfig : Type.
Variable syncDatabaseSchema : DatabaseConfig -> Error + unit.
Variable schedulePush scheduleCount : App.Node -> option App.Timeout.
Variable badPort : nat -> Error.

Abbreviation init_ :=
  (App.init DatabaseConfig syncDatabaseSchema schedulePush scheduleCount badPort).

Lemma init_rejected (initConfig : App.Config DatabaseConfig) this n e :
  syncDatabaseSchema (App.database _ initConfig) = inl e ->
  init_ initConfig this n = (Throw e, this, App.call App.SyncDatabaseSchema n).
Proof. intros Hs. unfold App.init. by rewrite Hs. Qed.

(** The state after [init] was refused the public port. *)
Lemma init_bad_public (initConfig : App.Config DatabaseConfig) this n u :
  syncDatabaseSchema (App.database _ initConfig) = inr u ->
  App.validPort (App.publicAPIPort (App.app _ initConfig)) = false ->
  init_ initConfig this n
  = (Throw (badPort (App.publicAPIPort (App.app _ initConfig))),
     App.mk (App.publicAPIExpress this ++ [("/", App.publicAPIRouter)])
            (App.privateAPIExpress this) (App.publicAPIServer this)
            (App.privateAPIServer this) (App.recurringMetricsPushTimeout this)
            (App.recurringMetricsTimeout this),
     App.mkNode (App.nextServer n) (App.calls n ++ [App.SyncDatabaseSchema])).
Proof.
  intros Hs Hpub. unfold App.init. rewrite Hs.
  unfold App.launchPublicAPI, App.listen. by rewrite Hpub.
Qed.

(** The state after [init] was refused the private port. *)
Lemma init_bad_private (initConfig : App.Config DatabaseConfig) this n u :
  syncDatabaseSchema (App.database _ initConfig) = inr u ->
  App.validPort (App.publicAPIPort (App.app _ initConfig)) = true ->
  App.validPort (App.privateAPIPort (App.app _ initConfig)) = false ->
  init_ initConfig this n
  = (Throw (badPort (App.privateAPIPort (App.app _ initConfig))),
     App.mk (App.publicAPIExpress this ++ [("/", App.publicAPIRouter)])
            (App.privateAPIExpress this
             ++ [("/users", App.privateAPIRouter); ("/metrics", App.metricsRouter);
                 ("/status/health", App.sendSuccess)])
            (Some (App.nextServer n)) (App.privateAPIServer this)
            (App.recurringMetricsPushTimeout this) (App.recurringMetricsTimeout this),
     App.mkNode (S (App.nextServer n))
       (App.calls n
        ++ [App.SyncDatabaseSchema;
            App.Listen App.PublicAPI (App.publicAPIPort (App.app _ initConfig))
              (App.nextServer n)])).
Proof.
  intros Hs Hpub Hpriv. unfold App.init. rewrite Hs.
  unfold App.launchPublicAPI, App.launchPrivateAPI, App.listen, App.call.
  rewrite Hpub, Hpriv.
  cbn [fst snd App.calls App.nextServer App.publicAPIServer App.privateAPIServer
       App.publicAPIExpress App.privateAPIExpress
       App.recurringMetricsTimeout App.recurringMetricsPushTimeout].
  rewrite <- !app_assoc. reflexivity.
Qed.

(** The state after a successful [init], written out. *)
Lemma init_resolved (initConfig : App.Config DatabaseConfig) this n u :
  syncDatabaseSchema (App.database _ initConfig) = inr u ->
  App.validPort (App.publicAPIPort (App.app _ initConfig)) = true ->
  App.validPort (App.privateAPIPort (App.app _ initConfig)) = true ->
  let k := App.nextServer n in
  let started :=
    [App.SyncDatabaseSchema;
     App.Listen App.PublicAPI (App.publicAPIPort (App.app _ initConfig)) k;
     App.Listen App.PrivateAPI (App.privateAPIPort (App.app _ initConfig)) (S k)] in
  init_ initConfig this n
  = (Ok tt,
     App.mk (App.publicAPIExpress this ++ [("/", App.publicAPIRouter)])
            (App.privateAPIExpress this
             ++ [("/users", App.privateAPIRouter); ("/metrics", App.metricsRouter);
                 ("/status/health", App.sendSuccess)])
            (Some k) (Some (S k))
            (schedulePush (App.mkNode (S (S k)) (App.calls n ++ started)))
            (scheduleCount
               (App.mkNode (S (S k))
                  (App.calls n ++ started ++ [App.ScheduleRecurringMetricsPush]))),
     App.mkNode (S (S k))
       (App.calls n ++ started
        ++ [App.ScheduleRecurringMetricsPush; App.ScheduleRecurringPayIdCountMetrics])).
Proof.
  intros Hs Hpub Hpriv k started. subst k started. unfold App.init. rewrite Hs.
  unfold App.launchPublicAPI, App.launchPrivateAPI, App.listen, App.call.
  rewrite Hpub, Hpriv.
  cbn [fst snd App.calls App.nextServer App.publicAPIServer App.privateAPIServer
       App.publicAPIExpress App.privateAPIExpress
       App.recurringMetricsTimeout App.recurringMetricsPushTimeout].
  rewrite <- !app_assoc. reflexivity.
Qed.

(** A successful [init] had its schema synchronised and both ports
    accepted. *)
Lemma init_resolved_inv (initConfig : App.Config DatabaseConfig) this n :
  fst (fst (init_ initConfig this n)) = Ok tt ->
  (exists u, syncDatabaseSchema (App.database _ initConfig) = inr u)
  /\ App.validPort (App.publicAPIPort (App.app _ initConfig)) = true
  /\ App.validPort (App.privateAPIPort (App.app _ initConfig)) = true.
Proof.
  destruct (syncDatabaseSchema (App.database _ initConfig)) as [e|u] eqn:Hs.
  { by rewrite (init_rejected _ _ _ e Hs). }
  destruct (App.validPort (App.publicAPIPort (App.app _ initConfig))) eqn:Hpub.
  2: { by rewrite (init_bad_public _ _ _ u Hs Hpub). }
  destruct (App.validPort (App.privateAPIPort (App.app _ initConfig))) eqn:Hpriv.
  2: { by rewrite (init_bad_private _ _ _ u Hs Hpub Hpriv). }
  intros _. split; [by exists u | done].
Qed.

End InitRuns.

(** X10: [init] throws exactly when the schema sync is rejected or Node
    refuses a configured port (the routers and the schedulers being taken not
    to throw), and what it leaves behind differs.  After a rejected sync the
    application object is as it was and nothing was started.  After a refused
    public port the public router is already mounted, though no server was
    launched.  After a refused private port every router is mounted and the
    public server is listening and stored in the object, so [init] has failed
    with a server running; a later [close] stops it. *)
Theorem init_failures_and_what_they_leave :
  forall (DatabaseConfig : Type) (syncDatabaseSchema : DatabaseConfig -> Error + unit)
         (schedulePush scheduleCount : App.Node -> option App.Timeout)
         (badPort : nat -> Error)
         (initConfig : App.Config DatabaseConfig) this n,
    let out := App.init DatabaseConfig syncDatabaseSchema schedulePush scheduleCount
                 badPort initConfig this n in
    let this' := snd (fst out) in
    let n' := snd out in
    let synced := exists u, syncDatabaseSchema (App.database _ initConfig) = inr u in
    let public := App.publicAPIPort (App.app _ initConfig) in
    let private := App.privateAPIPort (App.app _ initConfig) in
    (forall e,
        syncDatabaseSchema (App.database _ initConfig) = inl e ->
        fst (fst out) = Throw e
        /\ this' = this
        /\ App.since n n' = [App.SyncDatabaseSchema])
    /\ (synced ->
        App.validPort public = false ->
        fst (fst out) = Throw (badPort public)
        /\ this' = App.mk (App.publicAPIExpress this ++ [("/", App.publicAPIRouter)])
                     (App.privateAPIExpress this) (App.publicAPIServer this)
                     (App.privateAPIServer this) (App.recurringMetricsPushTimeout this)
                     (App.recurringMetricsTimeout this)
        /\ App.since n n' = [App.SyncDatabaseSchema])
    /\ (synced ->
        App.validPort public = true ->
        App.validPort private = false ->
        fst (fst out) = Throw (badPort private)
        /\ App.publicAPIExpress this'
           = App.publicAPIExpress this ++ [("/", App.publicAPIRouter)]
        /\ App.privateAPIExpress this'
           = App.privateAPIExpress this
             ++ [("/users", App.privateAPIRouter); ("/metrics", App.metricsRouter);
                 ("/status/health", App.sendSuccess)]
        /\ App.publicAPIServer this' = Some (App.nextServer n)
        /\ App.privateAPIServer this' = App.privateAPIServer this
        /\ App.since n n'
           = [App.SyncDatabaseSchema; App.Listen App.PublicAPI public (App.nextServer n)]
        /\ App.closed (App.since n' (App.close this' n'))
           = App.nextServer n :: option_list (App.privateAPIServer this))
    /\ (synced ->
        App.validPort public = true ->
        App.validPort private = true ->
        fst (fst out) = Ok tt).
Proof.
  intros DB sync push count bad c this n out this' n' synced public private.
  subst this' n' out synced public private.
  split; [|split; [|split]].
  - intros e Hs. rewrite (init_rejected DB sync push count bad c this n e Hs).
    cbn [fst snd]. repeat split. unfold App.call. by rewrite since_calls.
  - intros [u Hs] Hpub.
    rewrite (init_bad_public DB sync push count bad c this n u Hs Hpub).
    cbn [fst snd]. repeat split. by rewrite since_calls.
  - intros [u Hs] Hpub Hpriv.
    rewrite (init_bad_private DB sync push count bad c this n u Hs Hpub Hpriv).
    cbn [fst snd]. rewrite closed_close, since_calls.
    cbn [App.publicAPIServer App.privateAPIServer App.publicAPIExpress
         App.privateAPIExpress].
    repeat split.
  - intros [u Hs] Hpub Hpriv.
    by rewrite (init_resolved DB sync push count bad c this n u Hs Hpub Hpriv).
Qed.

Lemma init_failures_and_what_they_leave_witness :
  App.publicAPIServer
    (snd (fst (App.init string (fun _ => inr tt) (fun _ => None) (fun _ => None)
                 (fun _ => mkError "port refused")
                 (App.mkConfig string "postgres" (App.mkAppConfig 80 70000))
                 App.new (App.mkNode 0 []))))
  = Some 0.
Proof.
  destruct (init_failures_and_what_they_leave
              string (fun _ => inr tt) (fun _ => None) (fun _ => None)
              (fun _ => mkError "port refused")
              (App.mkConfig string "postgres" (App.mkAppConfig 80 70000))
              App.new (App.mkNode 0 []))
    as (_ & _ & Hprivate & _).
  destruct (Hprivate (ex_intro _ tt eq_refl) eq_refl eq_refl)
    as (_ & _ & _ & Hserver & _).
  exact Hserver.
Defined.

(** X11: [close] after a successful [init] stops exactly what that [init]
    started.  [init] launches the public and then the private server on the
    configured ports and stores what the two schedulers returned; [close]
    closes those two servers, and clears those of the two returned timers that
    hold the event loop, the one of the PayID-count scheduler before the one of
    the metrics-push scheduler. *)
Theorem close_stops_what_init_started :
  forall (DatabaseConfig : Type) (syncDatabaseSchema : DatabaseConfig -> Error + unit)
         (schedulePush scheduleCount : App.Node -> option App.Timeout)
         (badPort : nat -> Error)
         (initConfig : App.Config DatabaseConfig) this n,
    let out := App.init DatabaseConfig syncDatabaseSchema schedulePush scheduleCount
                 badPort initConfig this n in
    let this' := snd (fst out) in
    let n' := snd out in
    let launches :=
      [App.SyncDatabaseSchema;
       App.Listen App.PublicAPI (App.publicAPIPort (App.app _ initConfig))
         (App.nextServer n);
       App.Listen App.PrivateAPI (App.privateAPIPort (App.app _ initConfig))
         (S (App.nextServer n))] in
    let pushTimer :=
      schedulePush (App.mkNode (S (S (App.nextServer n))) (App.calls n ++ launches)) in
    let countTimer :=
      scheduleCount
        (App.mkNode (S (S (App.nextServer n)))
           (App.calls n ++ launches ++ [App.ScheduleRecurringMetricsPush])) in
    fst (fst out) = Ok tt ->
    App.since n n'
    = launches
      ++ [App.ScheduleRecurringMetricsPush; App.ScheduleRecurringPayIdCountMetrics]
    /\ App.closed (App.since n' (App.close this' n')) = App.launched (App.since n n')
    /\ App.cleared (App.since n' (App.close this' n'))
       = App.timer <$> filter (fun t => App.hasRef t = true)
                         (option_list countTimer ++ option_list pushTimer).
Proof.
  intros DB sync push count bad c this n out this' n' launches pushTimer countTimer.
  subst this' n' out pushTimer countTimer launches. intros Hok.
  destruct (init_resolved_inv DB sync push count bad c this n Hok)
    as ([u Hs] & Hpub & Hpriv).
  rewrite (init_resolved DB sync push count bad c this n u Hs Hpub Hpriv).
  cbn [fst snd]. rewrite since_calls, closed_close, cleared_close.
  cbn [App.publicAPIServer App.privateAPIServer App.recurringMetricsTimeout
       App.recurringMetricsPushTimeout].
  split; [done|]. split; reflexivity.
Qed.

Lemma close_stops_what_init_started_witness :
  App.cleared
    (App.since
       (snd (App.init string (fun _ => inr tt)
               (fun _ => Some (App.mkTimeout 7 true)) (fun _ => Some (App.mkTimeout 8 true))
               (fun _ => mkError "port refused")
               (App.mkConfig string "postgres" (App.mkAppConfig 3000 3001))
               App.new (App.mkNode 0 [])))
       (App.close
          (snd (fst (App.init string (fun _ => inr tt)
                       (fun _ => Some (App.mkTimeout 7 true))
                       (fun _ => Some (App.mkTimeout 8 true))
                       (fun _ => mkError "port refused")
                       (App.mkConfig string "postgres" (App.mkAppConfig 3000 3001))
                       App.new (App.mkNode 0 []))))
          (snd (App.init string (fun _ => inr tt)
                  (fun _ => Some (App.mkTimeout 7 true))
                  (fun _ => Some (App.mkTimeout 8 true))
                  (fun _ => mkError "port refused")
                  (App.mkConfig string "postgres" (App.mkAppConfig 3000 3001))
                  App.new (App.mkNode 0 [])))))
  = [8; 7].
Proof.
  destruct (close_stops_what_init_started
              string (fun _ => inr tt)
              (fun _ => Some (App.mkTimeout 7 true)) (fun _ => Some (App.mkTimeout 8 true))
              (fun _ => mkError "port refused")
              (App.mkConfig string "postgres" (App.mkAppConfig 3000 3001))
              App.new (App.mkNode 0 []) eq_refl)
    as (_ & _ & Hcleared).
  rewrite Hcleared. reflexivity.
Defined.

(** X12: [init] does not look at what an earlier [init] left.  After two
    successful calls every router is mounted twice on its application, and
    [close] stops only the two servers of the second call: the servers the first
    call launched are closed by no call of [close]. *)
Theorem second_init_abandons_first_servers :
  forall (DatabaseConfig : Type) (syncDatabaseSchema : DatabaseConfig -> Error + unit)
         (schedulePush scheduleCount : App.Node -> option App.Timeout)
         (badPort : nat -> Error)
         (config1 config2 : App.Config DatabaseConfig) this n,
    let out1 := App.init DatabaseConfig syncDatabaseSchema schedulePush scheduleCount
                  badPort config1 this n in
    let out2 := App.init DatabaseConfig syncDatabaseSchema schedulePush scheduleCount
                  badPort config2 (snd (fst out1)) (snd out1) in
    let this2 := snd (fst out2) in
    fst (fst out1) = Ok tt ->
    fst (fst out2) = Ok tt ->
    App.publicAPIExpress this2
    = App.publicAPIExpress this
      ++ [("/", App.publicAPIRouter); ("/", App.publicAPIRouter)]
    /\ App.privateAPIExpress this2
       = App.privateAPIExpress this
         ++ [("/users", App.privateAPIRouter); ("/metrics", App.metricsRouter);
             ("/status/health", App.sendSuccess);
             ("/users", App.privateAPIRouter); ("/metrics", App.metricsRouter);
             ("/status/health", App.sendSuccess)]
    /\ App.launched (App.since n (snd out2))
       = [App.nextServer n; S (App.nextServer n);
          S (S (App.nextServer n)); S (S (S (App.nextServer n)))]
    /\ App.closed (App.since (snd out2) (App.close this2 (snd out2)))
       = [S (S (App.nextServer n)); S (S (S (App.nextServer n)))].
Proof.
  intros DB sync push count bad c1 c2 this n out1 out2 this2. subst this2 out2 out1.
  intros Hok1.
  destruct (init_resolved_inv DB sync push count bad c1 this n Hok1)
    as ([u1 Hs1] & Hpub1 & Hpriv1).
  rewrite (init_resolved DB sync push count bad c1 this n u1 Hs1 Hpub1 Hpriv1).
  cbn [fst snd]. intros Hok2.
  destruct (init_resolved_inv DB sync push count bad c2 _ _ Hok2)
    as ([u2 Hs2] & Hpub2 & Hpriv2).
  rewrite (init_resolved DB sync push count bad c2 _ _ u2 Hs2 Hpub2 Hpriv2).
  cbn [fst snd App.calls App.nextServer App.publicAPIExpress App.privateAPIExpress].
  rewrite closed_close.
  cbn [App.publicAPIServer App.privateAPIServer].
  rewrite <- !app_assoc. by rewrite since_calls.
Qed.

Lemma second_init_abandons_first_servers_witness :
  App.publicAPIExpress
    (snd (fst (App.init string (fun _ => inr tt) (fun _ => None) (fun _ => None)
                 (fun _ => mkError "port refused")
                 (App.mkConfig string "postgres" (App.mkAppConfig 3000 3001))
                 (snd (fst (App.init string (fun _ => inr tt) (fun _ => None)
                              (fun _ => None) (fun _ => mkError "port refused")
                              (App.mkConfig string "postgres" (App.mkAppConfig 3000 3001))
                              App.new (App.mkNode 0 []))))
                 (snd (App.init string (fun _ => inr tt) (fun _ => None) (fun _ => None)
                         (fun _ => mkError "port refused")
                         (App.mkConfig string "postgres" (App.mkAppConfig 3000 3001))
                         App.new (App.mkNode 0 []))))))
  = [("/", App.publicAPIRouter); ("/", App.publicAPIRouter)].
Proof.
  exact (proj1 (second_init_abandons_first_servers
                  string (fun _ => inr tt) (fun _ => None) (fun _ => None)
                  (fun _ => mkError "port refused")
                  (App.mkConfig string "postgres" (App.mkAppConfig 3000 3001))
                  (App.mkConfig string "postgres" (App.mkAppConfig 3000 3001))
                  App.new (App.mkNode 0 []) eq_refl eq_refl)).
Defined.
